(** * onposix: the descriptor I/O core (PosixDescriptor.cpp)

    A shallow embedding of [PosixDescriptor] and of its nested
    [AsyncThread]: the two full-transfer loops [__read] and [__write], the
    synchronous [read]/[write] overloads and the asynchronous runner
    ([startAsyncOperation], [run]).

    The underlying descriptor is played by a script: the list of values the
    system calls [::read]/[::write] are going to report, in call order.  Every
    call made on the descriptor, every lock operation and every callback
    invocation is appended to a log, so that ordering properties can be read
    off the log. *)

From Stdlib Require Import ZArith List String Bool Lia.
Import ListNotations.
Open Scope Z_scope.

(** ** Integer types (LP64: [size_t] and [ssize_t] on 64 bits, [int] on 32)

    Conversions keep the value modulo 2^n, n the width of the destination:
    what the standard prescribes towards [size_t], and towards [int] what GCC
    and Clang do (and C++20 prescribes). *)

Module Machine.

Definition SIZE_MOD : Z := 2 ^ 64.
Definition INT_MOD : Z := 2 ^ 32.
Definition INT_MAX : Z := 2 ^ 31 - 1.

Definition in_size_t (x : Z) : Prop := 0 <= x < SIZE_MOD.

(** Conversion to [size_t]: reduction modulo 2^64. *)
Definition size_t_of (x : Z) : Z := x mod SIZE_MOD.

(** Conversion to [int]: the value modulo 2^32 that lies in [-2^31, 2^31). *)
Definition int_of (x : Z) : Z := (x + 2 ^ 31) mod INT_MOD - 2 ^ 31.

(** [a - b] computed on [size_t] operands. *)
Definition size_sub (a b : Z) : Z := size_t_of (a - b).

End Machine.
Import Machine.

(** ** Data *)

(** Function pointers are identified by a number; what the pointed code does
    is given by a table ([Handlers] below). *)
Definition fnptr : Type := nat.

(** [Buffer]: only [getBuffer()] (address of the storage) and [getSize()]
    (capacity) are used by the descriptor. *)
Record Buffer : Type := mkBuffer { getBuffer : Z; getSize : Z }.

(** [std::string]: address returned by [c_str()] and the characters. *)
Record StdString : Type := mkStdString { c_str : Z; chars : string }.

Definition size (s : StdString) : Z := Z.of_nat (String.length (chars s)).

Inductive AsyncOp : Type :=
  | READ_BUFFER | READ_VOID | WRITE_BUFFER | WRITE_VOID | NONE.

Definition AsyncOp_eqb (a b : AsyncOp) : bool :=
  match a, b with
  | READ_BUFFER, READ_BUFFER | READ_VOID, READ_VOID
  | WRITE_BUFFER, WRITE_BUFFER | WRITE_VOID, WRITE_VOID | NONE, NONE => true
  | _, _ => false
  end.

(** Fields of [PosixDescriptor::AsyncThread].  [launches] counts the calls of
    the inherited [start()], whose code is not part of this file: each call
    asks for one execution of [run()] on another thread. *)
Record AsyncThread : Type := mkAsyncThread {
  async_operation_ : AsyncOp;
  size_ : Z;
  buff_handler_ : fnptr;
  buff_buffer_ : Buffer;
  void_handler_ : fnptr;
  void_buffer_ : Z;
  launches : nat
}.

(** Fields of [PosixDescriptor]; [lock_] is [true] while the mutex is owned. *)
Record PosixDescriptor : Type := mkPosixDescriptor {
  fd_ : Z;
  lock_ : bool;
  job_ : AsyncThread
}.

Inductive Event : Type :=
  | EvLock
  | EvUnlock
  | EvSysRead (fd buf count ret : Z)     (* ret = ::read (fd, buf, count) *)
  | EvSysWrite (fd buf count ret : Z)    (* ret = ::write (fd, buf, count) *)
  | EvBuffHandler (h : fnptr) (b : Buffer) (n : Z)
  | EvVoidHandler (h : fnptr) (p : Z) (n : Z)
  | EvDebug (msg : string).

Record World : Type := mkWorld {
  des : PosixDescriptor;
  pending : list Z;          (* results the next system calls will report *)
  log : list Event           (* what happened so far, oldest first *)
}.

(** What a completion callback does to the descriptor it is attached to. *)
Record Handlers : Type := mkHandlers {
  buff_code : fnptr -> Buffer -> Z -> PosixDescriptor -> PosixDescriptor;
  void_code : fnptr -> Z -> Z -> PosixDescriptor -> PosixDescriptor
}.

(** ** Outcomes and the monad of descriptor operations *)

Inductive Outcome (A : Type) : Type :=
  | Returned (a : A)             (* normal return *)
  | Thrown (what : string)       (* std::runtime_error (what) *)
  | Blocked.                     (* the system call never answers *)
Arguments Returned {A} a.
Arguments Thrown {A} what.
Arguments Blocked {A}.

Definition M (A : Type) : Type := World -> Outcome A * World.

Definition mret {A} (a : A) : M A := fun w => (Returned a, w).

Definition mbind {A B} (m : M A) (f : A -> M B) : M B :=
  fun w =>
    match m w with
    | (Returned a, w') => f a w'
    | (Thrown e, w') => (Thrown e, w')
    | (Blocked, w') => (Blocked, w')
    end.

Definition throw {A} (what : string) : M A := fun w => (Thrown what, w).

Declare Scope io_scope.
Delimit Scope io_scope with io.
Notation "x <- m ;; k" := (mbind m (fun x => k))
  (at level 61, m at next level, right associativity) : io_scope.
Notation "m ;; k" := (mbind m (fun _ => k))
  (at level 61, right associativity) : io_scope.
Open Scope io_scope.

Definition emit (e : Event) (w : World) : World :=
  mkWorld (des w) (pending w) (log w ++ [e]).

Definition with_des (f : PosixDescriptor -> PosixDescriptor) (w : World) : World :=
  mkWorld (f (des w)) (pending w) (log w).

Definition set_lock (b : bool) (d : PosixDescriptor) : PosixDescriptor :=
  mkPosixDescriptor (fd_ d) b (job_ d).

Definition set_job (j : AsyncThread) (d : PosixDescriptor) : PosixDescriptor :=
  mkPosixDescriptor (fd_ d) (lock_ d) j.

(** [lock_.lock()]: returns once the caller owns the mutex (the wait for
    another owner does not show in a sequential run). *)
Definition lock : M unit :=
  fun w => (Returned tt, emit EvLock (with_des (set_lock true) w)).

(** [lock_.unlock()]. *)
Definition unlock : M unit :=
  fun w => (Returned tt, emit EvUnlock (with_des (set_lock false) w)).

(** [DEBUG(ERROR, msg)]: a diagnostic, no effect on the descriptor. *)
Definition DEBUG (msg : string) : M unit :=
  fun w => (Returned tt, emit (EvDebug msg) w).

Definition get_des : M PosixDescriptor := fun w => (Returned (des w), w).

Definition get_job : M AsyncThread := fun w => (Returned (job_ (des w)), w).

Definition put_job (j : AsyncThread) : M unit :=
  fun w => (Returned tt, with_des (set_job j) w).

(** ** The full-transfer loops *)

(** The [while (remaining > 0)] loop of [__read], run against the script of
    results of [::read].  It yields the value of [remaining] on leaving the
    loop, what is left of the script and the system calls made.  A blocking
    [::read] that is given no answer never returns. *)
Fixpoint read_loop (fd buffer size remaining : Z) (script : list Z)
  : Outcome Z * list Z * list Event :=
  if 0 <? remaining then
    match script with
    | [] => (Blocked, [], [])
    | ret :: script' =>
        let ev := EvSysRead fd (buffer + size_sub size remaining) remaining ret in
        if ret =? 0 then
          (* End of file reached *)
          (Returned remaining, script', [ev])
        else if ret <? 0 then
          (Thrown "Read error", script', [ev])
        else
          let '(o, rest, evs) :=
            read_loop fd buffer size (size_sub remaining ret) script' in
          (o, rest, ev :: evs)
    end
  else (Returned remaining, script, []).

(** The same loop of [__write], against the results of [::write]. *)
Fixpoint write_loop (fd buffer size remaining : Z) (script : list Z)
  : Outcome Z * list Z * list Event :=
  if 0 <? remaining then
    match script with
    | [] => (Blocked, [], [])
    | ret :: script' =>
        let ev := EvSysWrite fd (buffer + size_sub size remaining) remaining ret in
        if ret =? 0 then
          (* Cannot write more *)
          (Returned remaining, script', [ev])
        else if ret <? 0 then
          (Thrown "Write error", script', [ev])
        else
          let '(o, rest, evs) :=
            write_loop fd buffer size (size_sub remaining ret) script' in
          (o, rest, ev :: evs)
    end
  else (Returned remaining, script, []).

(** Runs a loop in a world: the script is consumed, the calls are logged. *)
Definition in_world
  (loop : Z -> list Z -> Outcome Z * list Z * list Event) : M Z :=
  fun w =>
    let '(o, rest, evs) := loop (fd_ (des w)) (pending w) in
    (o, mkWorld (des w) rest (log w ++ evs)).

(** [int PosixDescriptor::__read (void *buffer, size_t size)] *)
Definition __read (buffer size : Z) : M Z :=
  remaining <- in_world (fun fd => read_loop fd buffer size size) ;;
  mret (int_of (size_sub size remaining)).

(** [int PosixDescriptor::__write (const void *buffer, size_t size)] *)
Definition __write (buffer size : Z) : M Z :=
  remaining <- in_world (fun fd => write_loop fd buffer size size) ;;
  mret (int_of (size_sub size remaining)).

(** ** Synchronous operations *)

(** [int PosixDescriptor::read (Buffer b, size_t size)], [b] by pointer. *)
Definition read_Buffer (b : Buffer) (size : Z) : M Z :=
  if (getSize b =? 0) || (getSize b <? size) then
    DEBUG "Buffer size not enough!" ;;
    mret (-1)
  else
    lock ;;
    ret <- __read (getBuffer b) size ;;
    unlock ;;
    mret ret.

(** [int PosixDescriptor::read (void *p, size_t size)] *)
Definition read_void (p size : Z) : M Z :=
  lock ;;
  ret <- __read p size ;;
  unlock ;;
  mret ret.

(** [int PosixDescriptor::write (Buffer b, size_t size)], [b] by pointer. *)
Definition write_Buffer (b : Buffer) (size : Z) : M Z :=
  if (getSize b =? 0) || (getSize b <? size) then
    DEBUG "Buffer size not enough!" ;;
    mret (-1)
  else
    __write (getBuffer b) size.

(** [int PosixDescriptor::write (const void *p, size_t size)] *)
Definition write_void (p size : Z) : M Z :=
  __write p size.

(** [int PosixDescriptor::write (const std::string& s)] *)
Definition write_string (s : StdString) : M Z :=
  __write (c_str s) (size s).

(** ** The asynchronous runner *)

(** [start()], inherited: asks for [run()] to be executed on another thread. *)
Definition start : M unit :=
  j <- get_job ;;
  put_job (mkAsyncThread (async_operation_ j) (size_ j) (buff_handler_ j)
             (buff_buffer_ j) (void_handler_ j) (void_buffer_ j)
             (S (launches j))).

Definition set_async_operation (op : AsyncOp) : M unit :=
  j <- get_job ;;
  put_job (mkAsyncThread op (size_ j) (buff_handler_ j) (buff_buffer_ j)
             (void_handler_ j) (void_buffer_ j) (launches j)).

(** [AsyncThread::startAsyncOperation], overload for a [Buffer] target and a
    handler taking a [Buffer] and a [size_t]. *)
Definition startAsyncOperation_Buffer
  (read_operation : bool) (handler : fnptr) (buff : Buffer) (size : Z) : M unit :=
  j <- get_job ;;
  put_job (mkAsyncThread (async_operation_ j) size handler buff
             (void_handler_ j) (void_buffer_ j) (launches j)) ;;
  (if read_operation then set_async_operation READ_BUFFER
   else set_async_operation WRITE_BUFFER) ;;
  (* This will call run() on a different thread: *)
  start.

(** [AsyncThread::startAsyncOperation], overload for a raw target and a
    handler taking a raw pointer and a [size_t]. *)
Definition startAsyncOperation_void
  (read_operation : bool) (handler : fnptr) (buff : Z) (size : Z) : M unit :=
  j <- get_job ;;
  put_job (mkAsyncThread (async_operation_ j) size (buff_handler_ j)
             (buff_buffer_ j) handler buff (launches j)) ;;
  (if read_operation then set_async_operation READ_VOID
   else set_async_operation WRITE_VOID) ;;
  (* This will call run() on a different thread: *)
  start.

Section Runner.

Variable user : Handlers.

(** [buff_handler_(b, n)]: the call is logged, then the callback acts. *)
Definition call_buff_handler (h : fnptr) (b : Buffer) (n : Z) : M unit :=
  fun w =>
    (Returned tt, with_des (buff_code user h b n) (emit (EvBuffHandler h b n) w)).

(** [void_handler_(p, n)]. *)
Definition call_void_handler (h : fnptr) (p : Z) (n : Z) : M unit :=
  fun w =>
    (Returned tt, with_des (void_code user h p n) (emit (EvVoidHandler h p n) w)).

(** [void PosixDescriptor::AsyncThread::run()].  The [int n] is converted
    to [size_t] when it is handed to the callback. *)
Definition run : M unit :=
  j <- get_job ;;
  n <- (if AsyncOp_eqb (async_operation_ j) READ_BUFFER then
          __read (getBuffer (buff_buffer_ j)) (size_ j)
        else if AsyncOp_eqb (async_operation_ j) READ_VOID then
          __read (void_buffer_ j) (size_ j)
        else if AsyncOp_eqb (async_operation_ j) WRITE_BUFFER then
          __write (getBuffer (buff_buffer_ j)) (size_ j)
        else if AsyncOp_eqb (async_operation_ j) WRITE_VOID then
          __write (void_buffer_ j) (size_ j)
        else
          DEBUG "Handler called without operation!" ;;
          throw "Async error") ;;
  unlock ;;
  j <- get_job ;;
  (if AsyncOp_eqb (async_operation_ j) READ_BUFFER
      || AsyncOp_eqb (async_operation_ j) WRITE_BUFFER then
     call_buff_handler (buff_handler_ j) (buff_buffer_ j) (size_t_of n)
   else
     call_void_handler (void_handler_ j) (void_buffer_ j) (size_t_of n)) ;;
  set_async_operation NONE.

End Runner.

(** ** Vocabulary of the statements *)

(** Both loops are one loop, up to the system call made and the message of
    the exception ([read_loop_transfer], [write_loop_transfer] below). *)
Section Loop.

Variable sys : Z -> Z -> Z -> Z -> Event.
Variable what : string.

Fixpoint transfer_loop (fd buffer size remaining : Z) (script : list Z)
  : Outcome Z * list Z * list Event :=
  if 0 <? remaining then
    match script with
    | [] => (Blocked, [], [])
    | ret :: script' =>
        let ev := sys fd (buffer + size_sub size remaining) remaining ret in
        if ret =? 0 then (Returned remaining, script', [ev])
        else if ret <? 0 then (Thrown what, script', [ev])
        else
          let '(o, rest, evs) :=
            transfer_loop fd buffer size (size_sub remaining ret) script' in
          (o, rest, ev :: evs)
    end
  else (Returned remaining, script, []).

(** The calls made while the results [rets] are consumed one after the
    other, each call directed at the tail left by the previous ones. *)
Fixpoint calls (fd buffer size remaining : Z) (rets : list Z) : list Event :=
  match rets with
  | [] => []
  | ret :: rets' =>
      sys fd (buffer + (size - remaining)) remaining ret
        :: calls fd buffer size (remaining - ret) rets'
  end.

End Loop.

(** [__read] and [__write] as instances of one function
    ([__read_transfer], [__write_transfer] below). *)
Definition transfer (sys : Z -> Z -> Z -> Z -> Event) (what : string)
  (buffer size : Z) : M Z :=
  remaining <- in_world (fun fd => transfer_loop sys what fd buffer size size) ;;
  mret (int_of (size_sub size remaining)).

(** Number of bytes reported by a list of results. *)
Definition total (rets : list Z) : Z := fold_right Z.add 0 rets.

(** What running [m] in [w] adds to the log. *)
Definition transcript {A} (m : M A) (w : World) : list Event :=
  skipn (List.length (log w)) (log (snd (m w))).

Definition is_syscall (e : Event) : bool :=
  match e with
  | EvSysRead _ _ _ _ | EvSysWrite _ _ _ _ => true
  | _ => false
  end.

Definition is_callback (e : Event) : bool :=
  match e with
  | EvBuffHandler _ _ _ | EvVoidHandler _ _ _ => true
  | _ => false
  end.

(** The system call reported an error. *)
Definition failed (e : Event) : bool :=
  match e with
  | EvSysRead _ _ _ ret | EvSysWrite _ _ _ ret => ret <? 0
  | _ => false
  end.

(** The system call transferred between 0 and [count] bytes, or failed. *)
Definition within_request (e : Event) : bool :=
  match e with
  | EvSysRead _ _ count ret | EvSysWrite _ _ count ret => ret <=? count
  | _ => true
  end.

(** [::read] stores [ret] bytes at [buf] when [ret] is positive: the byte at
    address [a] has been stored by one of the calls of [evs]. *)
Definition stored (evs : list Event) (a : Z) : bool :=
  existsb (fun e =>
             match e with
             | EvSysRead _ buf _ ret => (buf <=? a) && (a <? buf + ret)
             | _ => false
             end) evs.

(** The world after [lock_.lock()] and after [lock_.unlock()]. *)
Definition locked (w : World) : World := emit EvLock (with_des (set_lock true) w).
Definition unlocked (w : World) : World := emit EvUnlock (with_des (set_lock false) w).

(** The descriptor as [op] leaves it when called on [d]. *)
Definition after {A} (op : M A) (d : PosixDescriptor) : PosixDescriptor :=
  des (snd (op (mkWorld d [] []))).

(** The loop [run] has to call for the staged operation [op]. *)
Definition staged_loop (j : AsyncThread) : M Z :=
  match async_operation_ j with
  | READ_BUFFER => __read (getBuffer (buff_buffer_ j)) (size_ j)
  | READ_VOID => __read (void_buffer_ j) (size_ j)
  | WRITE_BUFFER => __write (getBuffer (buff_buffer_ j)) (size_ j)
  | WRITE_VOID => __write (void_buffer_ j) (size_ j)
  | NONE => throw "no operation staged"
  end.

(** The callback matching the staged operation, with its arguments. *)
Definition staged_callback (j : AsyncThread) (n : Z) : Event :=
  match async_operation_ j with
  | READ_BUFFER | WRITE_BUFFER => EvBuffHandler (buff_handler_ j) (buff_buffer_ j) n
  | _ => EvVoidHandler (void_handler_ j) (void_buffer_ j) n
  end.

(** What the callback matching the staged operation does. *)
Definition staged_code (user : Handlers) (j : AsyncThread) (n : Z)
  : PosixDescriptor -> PosixDescriptor :=
  match async_operation_ j with
  | READ_BUFFER | WRITE_BUFFER => buff_code user (buff_handler_ j) (buff_buffer_ j) n
  | _ => void_code user (void_handler_ j) (void_buffer_ j) n
  end.

(** The mode is back to [NONE], the other fields are kept. *)
Definition idle (j : AsyncThread) : AsyncThread :=
  mkAsyncThread NONE (size_ j) (buff_handler_ j) (buff_buffer_ j)
    (void_handler_ j) (void_buffer_ j) (launches j).

(** Arguments and result of a system call of the log (0 for other events). *)
Definition call_buf (e : Event) : Z :=
  match e with
  | EvSysRead _ buf _ _ | EvSysWrite _ buf _ _ => buf
  | _ => 0
  end.

Definition call_count (e : Event) : Z :=
  match e with
  | EvSysRead _ _ count _ | EvSysWrite _ _ count _ => count
  | _ => 0
  end.

Definition call_ret (e : Event) : Z :=
  match e with
  | EvSysRead _ _ _ ret | EvSysWrite _ _ _ ret => ret
  | _ => 0
  end.

(** Bytes reported by the system calls of [evs], taken together. *)
Definition transferred (evs : list Event) : Z := total (map call_ret evs).

(** [::write] takes [ret] bytes from [buf] when [ret] is positive: the byte
    at address [a] has been taken by one of the calls of [evs]. *)
Definition sent (evs : list Event) (a : Z) : bool :=
  existsb (fun e =>
             match e with
             | EvSysWrite _ buf _ ret => (buf <=? a) && (a <? buf + ret)
             | _ => false
             end) evs.

(** The call stays inside the region of [size] bytes at [buffer], and ends
    where the region ends. *)
Definition inside (buffer size : Z) (e : Event) : Prop :=
  0 < call_count e
  /\ buffer <= call_buf e
  /\ call_buf e + call_count e = buffer + size.

Definition is_lock_event (e : Event) : bool :=
  match e with
  | EvLock | EvUnlock => true
  | _ => false
  end.

(** ** Concrete descriptors and callbacks, for the examples *)

Module Sample.

Definition job0 : AsyncThread :=
  mkAsyncThread NONE 0 0%nat (mkBuffer 0 0) 0%nat 0 0%nat.

(** Descriptor 3, unlocked, nothing staged, with the given script. *)
Definition world (script : list Z) : World :=
  mkWorld (mkPosixDescriptor 3 false job0) script [].

(** The same descriptor with the lock taken and an operation staged, as the
    worker thread finds it. *)
Definition staged (j : AsyncThread) (script : list Z) : World :=
  mkWorld (mkPosixDescriptor 3 true j) script [].

Definition buf8 : Buffer := mkBuffer 4096 8.
Definition buf0 : Buffer := mkBuffer 4096 0.

(** Callbacks that leave the descriptor alone. *)
Definition quiet : Handlers :=
  mkHandlers (fun _ _ _ d => d) (fun _ _ _ d => d).

(** The buffer callback writes back what it was given, asynchronously, on
    the same descriptor; completion is then reported to callback 7. *)
Definition chained : Handlers :=
  mkHandlers
    (fun _ b n d => after (startAsyncOperation_Buffer false 7%nat b n) d)
    (fun _ _ _ d => d).

End Sample.

(** * Properties *)

(** ** Integer conversions *)

Lemma size_t_of_small (x : Z) : in_size_t x -> size_t_of x = x.
Proof. unfold in_size_t, size_t_of. intros H. now apply Z.mod_small. Qed.

Lemma size_sub_small (a b : Z) : 0 <= b <= a -> in_size_t a -> size_sub a b = a - b.
Proof.
  unfold size_sub. intros Hb Ha. apply size_t_of_small.
  unfold in_size_t in *. lia.
Qed.

Lemma int_of_small (x : Z) : - 2 ^ 31 <= x <= INT_MAX -> int_of x = x.
Proof.
  unfold int_of, INT_MAX, INT_MOD. intros H.
  rewrite Z.mod_small; lia.
Qed.

Lemma int_of_le (x : Z) : 0 <= x -> int_of x <= x.
Proof.
  unfold int_of, INT_MOD. intros H.
  assert (Hm : (x + 2 ^ 31) mod 2 ^ 32 <= x + 2 ^ 31) by (apply Z.mod_le; lia).
  lia.
Qed.

Lemma AsyncOp_eqb_eq (a b : AsyncOp) : AsyncOp_eqb a b = true <-> a = b.
Proof. destruct a, b; simpl; split; congruence. Qed.

(** ** The two loops are one loop *)

Lemma read_loop_transfer (fd buffer size remaining : Z) (script : list Z) :
  read_loop fd buffer size remaining script
  = transfer_loop EvSysRead "Read error" fd buffer size remaining script.
Proof. reflexivity. Qed.

Lemma write_loop_transfer (fd buffer size remaining : Z) (script : list Z) :
  write_loop fd buffer size remaining script
  = transfer_loop EvSysWrite "Write error" fd buffer size remaining script.
Proof. reflexivity. Qed.

Section LoopFacts.

Variable sys : Z -> Z -> Z -> Z -> Event.
Variable what : string.
Variables fd buffer size : Z.
Hypothesis size_ok : in_size_t size.
Hypothesis failed_sys : forall f a c ret, failed (sys f a c ret) = (ret <? 0).
Hypothesis within_sys : forall f a c ret, within_request (sys f a c ret) = (ret <=? c).

Let loop := transfer_loop sys what fd buffer size.

(** A loop whose work is done makes no call. *)
Lemma transfer_loop_done (remaining : Z) (script : list Z) :
  remaining <= 0 -> loop remaining script = (Returned remaining, script, []).
Proof.
  intros H. unfold loop. destruct script; simpl;
    destruct (Z.ltb_spec 0 remaining); try lia; reflexivity.
Qed.

(** Positive results that fit in what remains are consumed one by one, and
    the loop goes on with what they leave. *)
Lemma transfer_loop_progress (pre rest : list Z) :
  forall remaining,
    Forall (fun ret => 0 < ret) pre ->
    total pre <= remaining <= size ->
    loop remaining (pre ++ rest)
    = let '(o, rest', evs) := loop (remaining - total pre) rest in
      (o, rest', calls sys fd buffer size remaining pre ++ evs).
Proof.
  induction pre as [|ret pre IH]; intros remaining Hpos Hle.
  - simpl. replace (remaining - 0) with remaining by lia.
    destruct (loop remaining rest) as [[o r] e]. reflexivity.
  - inversion Hpos as [|? ? Hret Hpos']; subst. simpl in Hle.
    assert (Htot : 0 <= total pre).
    { clear - Hpos'. induction Hpos'; simpl; lia. }
    unfold loop in *. simpl.
    destruct (Z.ltb_spec 0 remaining); [|lia].
    destruct (Z.eqb_spec ret 0); [lia|].
    destruct (Z.ltb_spec ret 0); [lia|].
    rewrite !size_sub_small by (unfold in_size_t in *; lia).
    rewrite IH by (auto; lia).
    replace (remaining - ret - total pre) with (remaining - (ret + total pre)) by lia.
    destruct (transfer_loop sys what fd buffer size
                (remaining - (ret + total pre)) rest) as [[o r] e].
    reflexivity.
Qed.

(** As long as no call reports more than it was asked for, [remaining]
    stays between 0 and its initial value. *)
Lemma transfer_loop_remaining (script : list Z) :
  forall remaining r rest evs,
    Forall (fun e => within_request e = true) evs ->
    0 <= remaining <= size ->
    loop remaining script = (Returned r, rest, evs) ->
    0 <= r <= remaining.
Proof.
  unfold loop.
  induction script as [|ret script IH]; intros remaining r rest evs Hin Hrem; simpl.
  - destruct (Z.ltb_spec 0 remaining); intros E; inversion E; subst; lia.
  - destruct (Z.ltb_spec 0 remaining); [|intros E; inversion E; subst; lia].
    destruct (Z.eqb_spec ret 0); [intros E; inversion E; subst; lia|].
    destruct (Z.ltb_spec ret 0); [discriminate|].
    destruct (transfer_loop sys what fd buffer size (size_sub remaining ret) script)
      as [[o r'] e'] eqn:E'.
    intros E; inversion E; subst.
    inversion Hin as [|? ? Hhd Htl]; subst.
    rewrite within_sys in Hhd. apply Z.leb_le in Hhd.
    rewrite size_sub_small in E' by (unfold in_size_t in *; lia).
    apply IH in E'; [lia|assumption|lia].
Qed.

(** A call that reports an error is the last one, and the loop throws. *)
Lemma transfer_loop_failure (script : list Z) :
  forall remaining o rest evs,
    loop remaining script = (o, rest, evs) ->
    Exists (fun e => failed e = true) evs ->
    o = Thrown what /\ failed (last evs EvLock) = true.
Proof.
  unfold loop.
  induction script as [|ret script IH]; intros remaining o rest evs; simpl.
  - destruct (0 <? remaining); intros E; inversion E; subst;
      intros Hex; inversion Hex.
  - destruct (0 <? remaining);
      [|intros E; inversion E; subst; intros Hex; inversion Hex].
    destruct (Z.eqb_spec ret 0).
    { intros E; inversion E; subst. intros Hex.
      inversion Hex as [? ? Hf|? ? Hf]; subst; [|inversion Hf].
      rewrite failed_sys in Hf. discriminate. }
    destruct (Z.ltb_spec ret 0).
    { intros E; inversion E; subst. intros _. split; [reflexivity|].
      simpl. rewrite failed_sys. now apply Z.ltb_lt. }
    destruct (transfer_loop sys what fd buffer size (size_sub remaining ret) script)
      as [[o' r'] e'] eqn:E'.
    intros E; inversion E; subst. intros Hex.
    inversion Hex as [? ? Hf|? ? Hf]; subst.
    { rewrite failed_sys in Hf. apply Z.ltb_lt in Hf. lia. }
    destruct (IH _ _ _ _ E' Hf) as [Ho Hl]. split; [assumption|].
    destruct e' as [|e0 e']; [inversion Hf|]. exact Hl.
Qed.

(** A loop that returns has seen no call report an error. *)
Lemma transfer_loop_returns (script : list Z) :
  forall remaining r rest evs,
    loop remaining script = (Returned r, rest, evs) ->
    Forall (fun e => failed e = false) evs.
Proof.
  unfold loop.
  induction script as [|ret script IH]; intros remaining r rest evs; simpl.
  - destruct (0 <? remaining); intros E; inversion E; subst; constructor.
  - destruct (0 <? remaining); [|intros E; inversion E; subst; constructor].
    destruct (Z.eqb_spec ret 0).
    { intros E; inversion E; subst. constructor; [|constructor].
      now rewrite failed_sys. }
    destruct (Z.ltb_spec ret 0); [discriminate|].
    destruct (transfer_loop sys what fd buffer size (size_sub remaining ret) script)
      as [[o' r'] e'] eqn:E'.
    intros E; inversion E; subst. constructor.
    + rewrite failed_sys. apply Z.ltb_ge. lia.
    + eapply IH; eassumption.
Qed.

End LoopFacts.

(** ** The loops in a world *)

Lemma __read_transfer (buffer size : Z) :
  __read buffer size = transfer EvSysRead "Read error" buffer size.
Proof. reflexivity. Qed.

Lemma __write_transfer (buffer size : Z) :
  __write buffer size = transfer EvSysWrite "Write error" buffer size.
Proof. reflexivity. Qed.

Lemma skipn_length_app {A} (l l' : list A) : skipn (List.length l) (l ++ l') = l'.
Proof. induction l; simpl; auto. Qed.

Lemma total_nonneg (rets : list Z) : Forall (fun ret => 0 < ret) rets -> 0 <= total rets.
Proof. induction 1; simpl; lia. Qed.

Lemma total_app (l l' : list Z) : total (l ++ l') = total l + total l'.
Proof. induction l; simpl; lia. Qed.

Section TransferFacts.

Variable sys : Z -> Z -> Z -> Z -> Event.
Variable what : string.
Hypothesis failed_sys : forall f a c ret, failed (sys f a c ret) = (ret <? 0).
Hypothesis within_sys : forall f a c ret, within_request (sys f a c ret) = (ret <=? c).

Lemma transfer_unfold (buffer size : Z) (w : World) :
  transfer sys what buffer size w
  = let '(o, rest, evs) :=
      transfer_loop sys what (fd_ (des w)) buffer size size (pending w) in
    (match o with
     | Returned remaining => Returned (int_of (size_sub size remaining))
     | Thrown e => Thrown e
     | Blocked => Blocked
     end, mkWorld (des w) rest (log w ++ evs)).
Proof.
  unfold transfer, mbind, in_world, mret.
  destruct (transfer_loop sys what (fd_ (des w)) buffer size size (pending w))
    as [[[r|e|] rest] evs]; reflexivity.
Qed.

(** The loop touches the script and the log, never the descriptor. *)
Lemma transfer_des (buffer size : Z) (w : World) :
  des (snd (transfer sys what buffer size w)) = des w.
Proof.
  rewrite transfer_unfold.
  destruct (transfer_loop sys what (fd_ (des w)) buffer size size (pending w))
    as [[o rest] evs]; reflexivity.
Qed.

Lemma transfer_log (buffer size : Z) (w : World) :
  log (snd (transfer sys what buffer size w))
  = log w ++ transcript (transfer sys what buffer size) w.
Proof.
  unfold transcript. rewrite transfer_unfold.
  destruct (transfer_loop sys what (fd_ (des w)) buffer size size (pending w))
    as [[o rest] evs]; simpl. now rewrite skipn_length_app.
Qed.

(** Outcome, script left and calls made depend on the descriptor number and
    on the script only. *)
Lemma transfer_same (buffer size : Z) (w1 w2 : World) :
  fd_ (des w1) = fd_ (des w2) -> pending w1 = pending w2 ->
  fst (transfer sys what buffer size w1) = fst (transfer sys what buffer size w2)
  /\ pending (snd (transfer sys what buffer size w1))
     = pending (snd (transfer sys what buffer size w2))
  /\ transcript (transfer sys what buffer size) w1
     = transcript (transfer sys what buffer size) w2.
Proof.
  intros Hfd Hp. unfold transcript. rewrite !transfer_unfold, Hfd, Hp.
  destruct (transfer_loop sys what (fd_ (des w2)) buffer size size (pending w2))
    as [[o rest] evs]; simpl. now rewrite !skipn_length_app.
Qed.

Lemma transfer_full (buffer size : Z) (w : World) (pre post : list Z) :
  in_size_t size ->
  pending w = pre ++ post ->
  Forall (fun ret => 0 < ret) pre ->
  total pre = size ->
  transfer sys what buffer size w
  = (Returned (int_of size),
     mkWorld (des w) post
       (log w ++ calls sys (fd_ (des w)) buffer size size pre)).
Proof.
  intros Hs Hp Hpos Htot. rewrite transfer_unfold, Hp.
  rewrite transfer_loop_progress by (auto; lia).
  replace (size - total pre) with 0 by lia.
  rewrite transfer_loop_done by lia.
  rewrite size_sub_small by (unfold in_size_t in *; lia).
  now rewrite Z.sub_0_r, app_nil_r.
Qed.

Lemma transfer_short (buffer size : Z) (w : World) (pre post : list Z) :
  in_size_t size ->
  pending w = pre ++ 0 :: post ->
  Forall (fun ret => 0 < ret) pre ->
  total pre < size ->
  transfer sys what buffer size w
  = (Returned (int_of (total pre)),
     mkWorld (des w) post
       (log w ++ calls sys (fd_ (des w)) buffer size size pre
              ++ [sys (fd_ (des w)) (buffer + total pre) (size - total pre) 0])).
Proof.
  intros Hs Hp Hpos Htot. pose proof (total_nonneg _ Hpos) as H0.
  rewrite transfer_unfold, Hp.
  rewrite transfer_loop_progress by (auto; lia).
  simpl. destruct (Z.ltb_spec 0 (size - total pre)); [|lia].
  rewrite !size_sub_small by (unfold in_size_t in *; lia).
  replace (size - (size - total pre)) with (total pre) by lia.
  reflexivity.
Qed.

Lemma transfer_error (buffer size : Z) (w : World) (pre post : list Z) (err : Z) :
  in_size_t size ->
  pending w = pre ++ err :: post ->
  Forall (fun ret => 0 < ret) pre ->
  total pre < size ->
  err < 0 ->
  transfer sys what buffer size w
  = (Thrown what,
     mkWorld (des w) post
       (log w ++ calls sys (fd_ (des w)) buffer size size pre
              ++ [sys (fd_ (des w)) (buffer + total pre) (size - total pre) err])).
Proof.
  intros Hs Hp Hpos Htot Herr. pose proof (total_nonneg _ Hpos) as H0.
  rewrite transfer_unfold, Hp.
  rewrite transfer_loop_progress by (auto; lia).
  simpl. destruct (Z.ltb_spec 0 (size - total pre)); [|lia].
  destruct (Z.eqb_spec err 0); [lia|].
  destruct (Z.ltb_spec err 0); [|lia].
  rewrite !size_sub_small by (unfold in_size_t in *; lia).
  replace (size - (size - total pre)) with (total pre) by lia.
  reflexivity.
Qed.

Lemma transfer_bounds (buffer size : Z) (w w' : World) (n : Z) :
  in_size_t size ->
  transfer sys what buffer size w = (Returned n, w') ->
  Forall (fun e => within_request e = true)
    (transcript (transfer sys what buffer size) w) ->
  n <= size /\ (size <= INT_MAX -> 0 <= n).
Proof.
  intros Hs. unfold transcript. rewrite transfer_unfold.
  destruct (transfer_loop sys what (fd_ (des w)) buffer size size (pending w))
    as [[[r|e|] rest] evs] eqn:E; simpl; try discriminate.
  rewrite skipn_length_app. intros Hn Hw. inversion Hn; subst; clear Hn.
  assert (Hr : 0 <= r <= size).
  { eapply transfer_loop_remaining; eauto. unfold in_size_t in Hs. lia. }
  rewrite size_sub_small by (auto; lia). split.
  - pose proof (int_of_le (size - r)). lia.
  - intros Hmax. rewrite int_of_small; unfold INT_MAX in *; lia.
Qed.

Lemma transfer_failure (buffer size : Z) (w : World) :
  Exists (fun e => failed e = true) (transcript (transfer sys what buffer size) w) ->
  fst (transfer sys what buffer size w) = Thrown what
  /\ failed (last (transcript (transfer sys what buffer size) w) EvLock) = true.
Proof.
  unfold transcript. rewrite transfer_unfold.
  destruct (transfer_loop sys what (fd_ (des w)) buffer size size (pending w))
    as [[o rest] evs] eqn:E; simpl.
  rewrite skipn_length_app. intros Hex.
  destruct (transfer_loop_failure sys what _ _ _ failed_sys _ _ _ _ _ E Hex)
    as [Ho Hl].
  subst o. auto.
Qed.

End TransferFacts.

(** ** Synchronous calls in terms of the loops *)

Lemma read_void_unfold (p size : Z) (w : World) :
  read_void p size w
  = match __read p size (locked w) with
    | (Returned n, w') => (Returned n, unlocked w')
    | (Thrown e, w') => (Thrown e, w')
    | (Blocked, w') => (Blocked, w')
    end.
Proof.
  unfold read_void, mbind, lock, unlock, mret, locked, unlocked.
  destruct (__read p size (emit EvLock (with_des (set_lock true) w)))
    as [[n|e|] w']; reflexivity.
Qed.

Lemma read_Buffer_valid (b : Buffer) (size : Z) :
  getSize b <> 0 -> size <= getSize b ->
  read_Buffer b size = read_void (getBuffer b) size.
Proof.
  intros H0 Hle. unfold read_Buffer, read_void.
  destruct (Z.eqb_spec (getSize b) 0); [contradiction|].
  destruct (Z.ltb_spec (getSize b) size); [lia|]. reflexivity.
Qed.

Lemma write_Buffer_valid (b : Buffer) (size : Z) :
  getSize b <> 0 -> size <= getSize b ->
  write_Buffer b size = __write (getBuffer b) size.
Proof.
  intros H0 Hle. unfold write_Buffer.
  destruct (Z.eqb_spec (getSize b) 0); [contradiction|].
  destruct (Z.ltb_spec (getSize b) size); [lia|]. reflexivity.
Qed.

Lemma stored_calls (fd buf size : Z) (pre : list Z) (a : Z) :
  forall remaining,
    Forall (fun ret => 0 < ret) pre ->
    stored (calls EvSysRead fd buf size remaining pre) a = true
    <-> buf + (size - remaining) <= a < buf + (size - remaining) + total pre.
Proof.
  induction pre as [|ret pre IH]; intros remaining Hpos; simpl.
  - split; [discriminate|lia].
  - inversion Hpos as [|? ? Hret Hpos']; subst.
    pose proof (total_nonneg _ Hpos') as Htot.
    rewrite orb_true_iff, andb_true_iff, Z.leb_le, Z.ltb_lt, (IH _ Hpos'). lia.
Qed.

Lemma stored_between_locks (evs : list Event) (a : Z) :
  stored (EvLock :: evs ++ [EvUnlock]) a = stored evs a.
Proof.
  unfold stored. simpl. rewrite existsb_app. simpl. now rewrite !orb_false_r.
Qed.

(** A full read, whatever the size: the count comes back through an [int]. *)
Lemma __read_full (buf s : Z) (w : World) (pre post : list Z) :
  in_size_t s ->
  pending w = pre ++ post ->
  Forall (fun ret => 0 < ret) pre ->
  total pre = s ->
  __read buf s w
  = (Returned (int_of s),
     mkWorld (des w) post (log w ++ calls EvSysRead (fd_ (des w)) buf s s pre)).
Proof. intros. rewrite __read_transfer. now apply transfer_full. Qed.

(** ** C1: a read whose data is available is complete *)

(** C1 (as amended).  For every requested size [s] up to [INT_MAX], if
    [::read], called on the unfilled tail of the target region, reports
    positive counts [pre] adding up to [s], then [__read] returns exactly [s],
    leaves the rest of the script untouched, and the bytes stored are exactly
    those of the region [buf, buf + s); so does a synchronous [read] into a
    buffer whose capacity is not zero and at least [s]. *)
Theorem read_delivers_requested_size
  (w : World) (buf s : Z) (pre post : list Z) :
  pending w = pre ++ post ->
  Forall (fun ret => 0 < ret) pre ->
  total pre = s ->
  s <= INT_MAX ->
  (fst (__read buf s w) = Returned s
   /\ pending (snd (__read buf s w)) = post
   /\ forall a, stored (transcript (__read buf s) w) a = true <-> buf <= a < buf + s)
  /\ forall b : Buffer,
       getSize b <> 0 -> s <= getSize b ->
       fst (read_Buffer b s w) = Returned s
       /\ pending (snd (read_Buffer b s w)) = post
       /\ forall a, stored (transcript (read_Buffer b s) w) a = true
                    <-> getBuffer b <= a < getBuffer b + s.
Proof.
  intros Hp Hpos Htot Hmax.
  pose proof (total_nonneg _ Hpos) as H0.
  assert (Hs : in_size_t s) by (unfold in_size_t, INT_MAX, SIZE_MOD in *; lia).
  assert (Hint : int_of s = s) by (apply int_of_small; unfold INT_MAX in *; lia).
  split.
  - unfold transcript. rewrite (__read_full buf s w pre post) by assumption.
    simpl. rewrite skipn_length_app.
    split; [congruence|split; [reflexivity|]].
    intros a. rewrite stored_calls by assumption. lia.
  - intros b Hcap Hle. unfold transcript.
    rewrite (read_Buffer_valid b s Hcap Hle), read_void_unfold.
    rewrite (__read_full (getBuffer b) s (locked w) pre post) by assumption.
    simpl. rewrite <- !app_assoc, skipn_length_app.
    split; [congruence|split; [reflexivity|]].
    intros a. change ([EvLock] ++ ?l) with (EvLock :: l).
    rewrite stored_between_locks, stored_calls by assumption. lia.
Qed.

Lemma read_delivers_requested_size_witness :
  fst (__read 4096 8 (Sample.world [4; 4; 9])) = Returned 8
  /\ fst (read_Buffer Sample.buf8 8 (Sample.world [4; 4; 9])) = Returned 8.
Proof.
  assert (H : pending (Sample.world [4; 4; 9]) = [4; 4] ++ [9]) by reflexivity.
  assert (Hpos : Forall (fun ret => 0 < ret) [4; 4]) by (repeat constructor; lia).
  assert (Htot : total [4; 4] = 8) by reflexivity.
  assert (Hmax : 8 <= INT_MAX) by (unfold INT_MAX; lia).
  destruct (read_delivers_requested_size _ 4096 8 _ _ H Hpos Htot Hmax)
    as [[Hloop _] Hsync].
  split; [exact Hloop|].
  apply (Hsync Sample.buf8); simpl; lia.
Defined.

(** C1 as stated fails in two places: a read of 0 bytes into a buffer of
    capacity 0 is refused with -1 although the capacity is at least the size,
    and a complete read of 2^31 bytes, here delivered in two halves, comes
    back as -2^31 through the [int] result. *)
Lemma read_delivers_requested_size_counterexample :
  (getSize Sample.buf0 >= 0
   /\ fst (read_Buffer Sample.buf0 0 (Sample.world [])) = Returned (-1)
   /\ fst (read_Buffer Sample.buf0 0 (Sample.world [])) <> Returned 0)
  /\ (Forall (fun ret => 0 < ret) [2 ^ 30; 2 ^ 30]
      /\ total [2 ^ 30; 2 ^ 30] = 2 ^ 31
      /\ fst (__read 4096 (2 ^ 31) (Sample.world [2 ^ 30; 2 ^ 30]))
         = Returned (- 2 ^ 31)
      /\ fst (__read 4096 (2 ^ 31) (Sample.world [2 ^ 30; 2 ^ 30]))
         <> Returned (2 ^ 31)).
Proof.
  split; [split; [|split]|split; [|split; [|split]]].
  - simpl. lia.
  - vm_compute. reflexivity.
  - vm_compute. discriminate.
  - repeat constructor; lia.
  - vm_compute. reflexivity.
  - vm_compute. reflexivity.
  - vm_compute. discriminate.
Qed.

(** ** C4: a zero-byte result ends the transfer with the count so far *)

(** Within the range of [int]: if the system call reports 0 after positive
    results [pre] adding up to [k < s], with [k] at most [INT_MAX], then
    [__read] and [__write] both return [k] normally, having consumed the
    script up to and including the 0. *)
Lemma zero_result_stops_with_count
  (w : World) (buf s : Z) (pre post : list Z) :
  in_size_t s ->
  pending w = pre ++ 0 :: post ->
  Forall (fun ret => 0 < ret) pre ->
  total pre < s ->
  total pre <= INT_MAX ->
  (fst (__read buf s w) = Returned (total pre)
   /\ pending (snd (__read buf s w)) = post)
  /\ (fst (__write buf s w) = Returned (total pre)
      /\ pending (snd (__write buf s w)) = post).
Proof.
  intros Hs Hp Hpos Hlt Hmax.
  pose proof (total_nonneg _ Hpos) as H0.
  assert (Hint : int_of (total pre) = total pre)
    by (apply int_of_small; unfold INT_MAX in *; lia).
  rewrite __read_transfer, __write_transfer.
  rewrite !(transfer_short _ _ buf s w pre post) by assumption.
  simpl. rewrite Hint. auto.
Qed.

Lemma zero_result_stops_with_count_witness :
  fst (__read 4096 8 (Sample.world [3; 2; 0; 7])) = Returned 5
  /\ fst (__write 4096 8 (Sample.world [3; 2; 0; 7])) = Returned 5.
Proof.
  assert (Hs : in_size_t 8) by (unfold in_size_t, SIZE_MOD; lia).
  assert (H : pending (Sample.world [3; 2; 0; 7]) = [3; 2] ++ 0 :: [7]) by reflexivity.
  assert (Hpos : Forall (fun ret => 0 < ret) [3; 2]) by (repeat constructor; lia).
  assert (Hlt : total [3; 2] < 8) by (simpl; lia).
  assert (Hmax : total [3; 2] <= INT_MAX) by (unfold INT_MAX; simpl; lia).
  destruct (zero_result_stops_with_count _ 4096 8 _ _ Hs H Hpos Hlt Hmax)
    as [[Hr _] [Hw _]].
  split; assumption.
Defined.

(** C4 at work beyond [INT_MAX].  Of 3 * 2^30 bytes requested, 2^31 have
    been transferred, in two calls, when the system call reports 0: [__read]
    and [__write] return normally, but the count they return is -2^31 and not
    the 2^31 bytes transferred, the [size_t] count being narrowed to the
    [int] result. *)
Theorem zero_result_count_truncated :
  in_size_t (3 * 2 ^ 30)
  /\ Forall (fun ret => 0 < ret) [2 ^ 30; 2 ^ 30]
  /\ total [2 ^ 30; 2 ^ 30] = 2 ^ 31
  /\ 2 ^ 31 < 3 * 2 ^ 30
  /\ __read 4096 (3 * 2 ^ 30) (Sample.world [2 ^ 30; 2 ^ 30; 0])
     = (Returned (- 2 ^ 31),
        mkWorld (des (Sample.world [])) []
          [EvSysRead 3 4096 (3 * 2 ^ 30) (2 ^ 30);
           EvSysRead 3 (4096 + 2 ^ 30) (2 ^ 31) (2 ^ 30);
           EvSysRead 3 (4096 + 2 ^ 31) (2 ^ 30) 0])
  /\ fst (__read 4096 (3 * 2 ^ 30) (Sample.world [2 ^ 30; 2 ^ 30; 0]))
     <> Returned (2 ^ 31)
  /\ fst (__write 4096 (3 * 2 ^ 30) (Sample.world [2 ^ 30; 2 ^ 30; 0]))
     = Returned (- 2 ^ 31)
  /\ fst (__write 4096 (3 * 2 ^ 30) (Sample.world [2 ^ 30; 2 ^ 30; 0]))
     <> Returned (2 ^ 31).
Proof.
  split; [unfold in_size_t, SIZE_MOD; lia|].
  split; [repeat constructor; lia|].
  split; [reflexivity|].
  split; [lia|].
  repeat split; vm_compute; (reflexivity || discriminate).
Qed.

(** ** C9: the count returned never exceeds the request *)

(** For every requested size [s], if every call made by the loop reports at
    most the count it was asked for, then a count [n] returned by [__read] or
    by [__write] is at most [s]; it is not negative as soon as [s] is at most
    [INT_MAX]. *)
Lemma returned_count_bounded (w w' : World) (buf s n : Z) :
  in_size_t s ->
  (__read buf s w = (Returned n, w') ->
   Forall (fun e => within_request e = true) (transcript (__read buf s) w) ->
   n <= s /\ (s <= INT_MAX -> 0 <= n))
  /\ (__write buf s w = (Returned n, w') ->
      Forall (fun e => within_request e = true) (transcript (__write buf s) w) ->
      n <= s /\ (s <= INT_MAX -> 0 <= n)).
Proof.
  intros Hs. rewrite __read_transfer, __write_transfer.
  split; intros Hrun Hin;
    eapply transfer_bounds; eauto; intros; reflexivity.
Qed.

Lemma returned_count_bounded_witness :
  5 <= 8 /\ (8 <= INT_MAX -> 0 <= 5).
Proof.
  assert (Hs : in_size_t 8) by (unfold in_size_t, SIZE_MOD; lia).
  refine (proj1 (returned_count_bounded (Sample.world [3; 2; 0; 7])
                   (mkWorld (des (Sample.world [])) [7]
                      [EvSysRead 3 4096 8 3; EvSysRead 3 4099 5 2;
                       EvSysRead 3 4101 3 0])
                   4096 8 5 Hs) _ _).
  - reflexivity.
  - repeat constructor.
Defined.

(** C9 at work beyond [INT_MAX].  2^31 bytes are requested and transferred
    in two calls, each reporting no more than it was asked for; [__read] and
    [__write] return normally and the count they return, -2^31, is below 0. *)
Theorem returned_count_negative :
  in_size_t (2 ^ 31)
  /\ forallb within_request
       (transcript (__read 4096 (2 ^ 31)) (Sample.world [2 ^ 30; 2 ^ 30])) = true
  /\ fst (__read 4096 (2 ^ 31) (Sample.world [2 ^ 30; 2 ^ 30])) = Returned (- 2 ^ 31)
  /\ ~ (0 <= - 2 ^ 31)
  /\ forallb within_request
       (transcript (__write 4096 (2 ^ 31)) (Sample.world [2 ^ 30; 2 ^ 30])) = true
  /\ fst (__write 4096 (2 ^ 31) (Sample.world [2 ^ 30; 2 ^ 30])) = Returned (- 2 ^ 31).
Proof.
  split; [unfold in_size_t, SIZE_MOD; lia|].
  split; [vm_compute; reflexivity|].
  split; [vm_compute; reflexivity|].
  split; [lia|].
  split; vm_compute; reflexivity.
Qed.

(** ** C5: an error of the system call aborts the transfer *)

Lemma outcome_of_read_void (p size : Z) (w : World) (what : string) :
  fst (__read p size w) = Thrown what -> fst (read_void p size w) = Thrown what.
Proof.
  intros H. rewrite read_void_unfold.
  assert (Hsame : fst (__read p size (locked w)) = fst (__read p size w)).
  { rewrite __read_transfer. now apply transfer_same. }
  destruct (__read p size (locked w)) as [[n|e|] w1]; simpl in *; congruence.
Qed.

(** C5.  Whenever a call made by [__read] (resp. [__write]) reports a
    negative result, that call is the last one the loop makes and the loop
    throws [runtime_error]: no byte count is returned, and the exception goes
    through the synchronous [read] and [write] overloads to their caller. *)
Theorem negative_result_throws (w : World) (buf s : Z) :
  (Exists (fun e => failed e = true) (transcript (__read buf s) w) ->
   fst (__read buf s w) = Thrown "Read error"
   /\ (forall n, fst (__read buf s w) <> Returned n)
   /\ failed (last (transcript (__read buf s) w) EvLock) = true
   /\ fst (read_void buf s w) = Thrown "Read error"
   /\ forall b, getBuffer b = buf -> getSize b <> 0 -> s <= getSize b ->
                fst (read_Buffer b s w) = Thrown "Read error")
  /\ (Exists (fun e => failed e = true) (transcript (__write buf s) w) ->
      fst (__write buf s w) = Thrown "Write error"
      /\ (forall n, fst (__write buf s w) <> Returned n)
      /\ failed (last (transcript (__write buf s) w) EvLock) = true
      /\ fst (write_void buf s w) = Thrown "Write error"
      /\ (forall b, getBuffer b = buf -> getSize b <> 0 -> s <= getSize b ->
                    fst (write_Buffer b s w) = Thrown "Write error")
      /\ forall str, c_str str = buf -> size str = s ->
                     fst (write_string str w) = Thrown "Write error").
Proof.
  split; intros Hex.
  - rewrite __read_transfer in Hex.
    destruct (transfer_failure EvSysRead "Read error"
                (fun _ _ _ _ => eq_refl) buf s w Hex) as [Ho Hl].
    rewrite <- __read_transfer in Ho, Hl.
    split; [exact Ho|]. split; [intros n; rewrite Ho; discriminate|].
    split; [exact Hl|]. split; [now apply outcome_of_read_void|].
    intros b Hb Hcap Hle. subst buf.
    rewrite (read_Buffer_valid b s Hcap Hle). now apply outcome_of_read_void.
  - rewrite __write_transfer in Hex.
    destruct (transfer_failure EvSysWrite "Write error"
                (fun _ _ _ _ => eq_refl) buf s w Hex) as [Ho Hl].
    rewrite <- __write_transfer in Ho, Hl.
    split; [exact Ho|]. split; [intros n; rewrite Ho; discriminate|].
    split; [exact Hl|]. split; [exact Ho|]. split.
    + intros b Hb Hcap Hle. subst buf.
      now rewrite (write_Buffer_valid b s Hcap Hle).
    + intros str Hbuf Hsize. unfold write_string. now rewrite Hbuf, Hsize.
Qed.

Lemma negative_result_throws_witness :
  fst (__read 4096 8 (Sample.world [3; -1; 5])) = Thrown "Read error"
  /\ fst (__write 4096 8 (Sample.world [3; -1; 5])) = Thrown "Write error".
Proof.
  destruct (negative_result_throws (Sample.world [3; -1; 5]) 4096 8) as [Hr Hw].
  split.
  - apply Hr. apply Exists_cons_tl, Exists_cons_hd. reflexivity.
  - apply Hw. apply Exists_cons_tl, Exists_cons_hd. reflexivity.
Defined.

(** ** C3: a buffer that cannot hold the request is refused *)

(** C3.  When the capacity of the buffer is zero or smaller than the
    requested size, [read] and [write] on a [Buffer] return -1 (no
    exception), leave the descriptor, lock included, and the script as they
    were, and log nothing but the diagnostic: no system call is made. *)
Theorem undersized_buffer_refused (b : Buffer) (s : Z) (w : World) :
  getSize b = 0 \/ getSize b < s ->
  (fst (read_Buffer b s w) = Returned (-1)
   /\ des (snd (read_Buffer b s w)) = des w
   /\ pending (snd (read_Buffer b s w)) = pending w
   /\ transcript (read_Buffer b s) w = [EvDebug "Buffer size not enough!"])
  /\ (fst (write_Buffer b s w) = Returned (-1)
      /\ des (snd (write_Buffer b s w)) = des w
      /\ pending (snd (write_Buffer b s w)) = pending w
      /\ transcript (write_Buffer b s) w = [EvDebug "Buffer size not enough!"]).
Proof.
  intros Hbad.
  assert (Hguard : (getSize b =? 0) || (getSize b <? s) = true).
  { apply orb_true_iff. destruct Hbad as [H|H].
    - left. now apply Z.eqb_eq.
    - right. now apply Z.ltb_lt. }
  unfold transcript, read_Buffer, write_Buffer. rewrite Hguard.
  unfold mbind, DEBUG, mret, emit. simpl.
  rewrite skipn_length_app. repeat split.
Qed.

Lemma undersized_buffer_refused_witness :
  fst (read_Buffer Sample.buf8 9 (Sample.world [9])) = Returned (-1)
  /\ fst (write_Buffer Sample.buf0 0 (Sample.world [9])) = Returned (-1).
Proof.
  split.
  - apply (undersized_buffer_refused Sample.buf8 9 (Sample.world [9])).
    right. simpl. lia.
  - apply (undersized_buffer_refused Sample.buf0 0 (Sample.world [9])).
    left. reflexivity.
Defined.

(** ** C2: which synchronous calls hold the lock *)

Lemma is_syscall_calls (sys : Z -> Z -> Z -> Z -> Event) :
  (forall f a c ret, is_syscall (sys f a c ret) = true) ->
  forall script what fd buffer size remaining o rest evs,
    transfer_loop sys what fd buffer size remaining script = (o, rest, evs) ->
    Forall (fun e => is_syscall e = true) evs.
Proof.
  intros Hsys. induction script as [|ret script IH];
    intros what fd buffer size remaining o rest evs; simpl.
  - destruct (0 <? remaining); intros E; inversion E; constructor.
  - destruct (0 <? remaining); [|intros E; inversion E; constructor].
    destruct (ret =? 0); [intros E; inversion E; repeat constructor; apply Hsys|].
    destruct (ret <? 0); [intros E; inversion E; repeat constructor; apply Hsys|].
    destruct (transfer_loop sys what fd buffer size (size_sub remaining ret) script)
      as [[o' r'] e'] eqn:E'.
    intros E; inversion E; subst. constructor; [apply Hsys|].
    eapply IH; eassumption.
Qed.

(** The loops log system calls only. *)
Lemma transfer_transcript_syscalls (sys : Z -> Z -> Z -> Z -> Event)
  (what : string) (buffer size : Z) (w : World) :
  (forall f a c ret, is_syscall (sys f a c ret) = true) ->
  Forall (fun e => is_syscall e = true) (transcript (transfer sys what buffer size) w).
Proof.
  intros Hsys. unfold transcript. rewrite transfer_unfold.
  destruct (transfer_loop sys what (fd_ (des w)) buffer size size (pending w))
    as [[o rest] evs] eqn:E; simpl.
  rewrite skipn_length_app. eapply is_syscall_calls; eassumption.
Qed.

(** A synchronous read that returns has run its loop between [lock] and
    [unlock]; the lock is free afterwards. *)
Lemma read_void_locks (p s n : Z) (w w' : World) :
  read_void p s w = (Returned n, w') ->
  transcript (read_void p s) w
  = EvLock :: transcript (__read p s) w ++ [EvUnlock]
  /\ lock_ (des w') = false.
Proof.
  unfold transcript. rewrite read_void_unfold, __read_transfer, !transfer_unfold.
  change (fd_ (des (locked w))) with (fd_ (des w)).
  change (pending (locked w)) with (pending w).
  destruct (transfer_loop EvSysRead "Read error" (fd_ (des w)) p s s (pending w))
    as [[[r|e|] rest] evs]; try discriminate.
  intros E. inversion E; subst. simpl.
  rewrite <- !app_assoc, !skipn_length_app. auto.
Qed.

(** No synchronous write ever touches the lock: its log holds system calls
    only, and the lock is left as it was found. *)
Lemma write_void_no_lock (p s : Z) (w : World) :
  Forall (fun e => is_syscall e = true) (transcript (write_void p s) w)
  /\ lock_ (des (snd (write_void p s w))) = lock_ (des w).
Proof.
  unfold write_void. rewrite __write_transfer. split.
  - now apply transfer_transcript_syscalls.
  - now rewrite transfer_des.
Qed.

(** C2 at work.  On an unlocked descriptor the three [write] overloads issue
    [::write] with no [lock] before and no [unlock] after, where both [read]
    overloads wrap the same transfer in the lock. *)
Theorem write_overloads_skip_lock :
  transcript (write_Buffer Sample.buf8 8) (Sample.world [8])
  = [EvSysWrite 3 4096 8 8]
  /\ transcript (write_void 4096 8) (Sample.world [8])
     = [EvSysWrite 3 4096 8 8]
  /\ transcript (write_string (mkStdString 4096 "12345678")) (Sample.world [8])
     = [EvSysWrite 3 4096 8 8]
  /\ transcript (read_Buffer Sample.buf8 8) (Sample.world [8])
     = [EvLock; EvSysRead 3 4096 8 8; EvUnlock]
  /\ transcript (read_void 4096 8) (Sample.world [8])
     = [EvLock; EvSysRead 3 4096 8 8; EvUnlock].
Proof. repeat split; vm_compute; reflexivity. Qed.

(** ** C8: the worker routine with nothing staged *)

(** C8.  Run with the mode [NONE], the worker routine throws
    [runtime_error]; it makes no system call and invokes no callback (the log
    only gains the diagnostic), and descriptor and script are as before. *)
Theorem run_without_operation_throws (user : Handlers) (w : World) :
  async_operation_ (job_ (des w)) = NONE ->
  fst (run user w) = Thrown "Async error"
  /\ des (snd (run user w)) = des w
  /\ pending (snd (run user w)) = pending w
  /\ transcript (run user) w = [EvDebug "Handler called without operation!"].
Proof.
  intros Hnone. unfold transcript, run, mbind, get_job. rewrite Hnone. simpl.
  rewrite skipn_length_app. repeat split.
Qed.

Lemma run_without_operation_throws_witness :
  fst (run Sample.quiet (Sample.world [8])) = Thrown "Async error".
Proof.
  apply (run_without_operation_throws Sample.quiet (Sample.world [8])).
  reflexivity.
Defined.

(** ** The worker routine with an operation staged *)

(** [run] is the staged loop, then [unlock], the matching callback and the
    reset of the mode; an exception or a blocked call of the loop ends [run]
    where it happens. *)
Lemma run_staged (user : Handlers) (w : World) :
  async_operation_ (job_ (des w)) <> NONE ->
  run user w
  = match staged_loop (job_ (des w)) w with
    | (Returned n, w1) =>
        (Returned tt,
         with_des (fun d => set_job (idle (job_ d)) d)
           (with_des (staged_code user (job_ (des w)) (size_t_of n))
              (emit (staged_callback (job_ (des w)) (size_t_of n)) (unlocked w1))))
    | (Thrown e, w1) => (Thrown e, w1)
    | (Blocked, w1) => (Blocked, w1)
    end.
Proof.
  intros Hmode. unfold run, staged_loop, staged_code, staged_callback.
  unfold mbind at 1. unfold get_job at 1.
  destruct (async_operation_ (job_ (des w))) eqn:Hop; try congruence; simpl;
    rewrite ?__read_transfer, ?__write_transfer;
    unfold mbind at 1; rewrite transfer_unfold;
    match goal with
    | |- context [transfer_loop ?a ?b ?c ?d ?e ?f ?g] =>
        destruct (transfer_loop a b c d e f g) as [[[r|e0|] rest] evs]
    end; try reflexivity;
    unfold mbind, unlock, get_job, call_buff_handler, call_void_handler,
      set_async_operation, put_job, mret; simpl; rewrite Hop; reflexivity.
Qed.

Lemma staged_loop_des (j : AsyncThread) (w : World) :
  des (snd (staged_loop j w)) = des w.
Proof.
  unfold staged_loop. destruct (async_operation_ j);
    rewrite ?__read_transfer, ?__write_transfer; try apply transfer_des.
  reflexivity.
Qed.

Lemma staged_loop_log (j : AsyncThread) (w : World) :
  log (snd (staged_loop j w)) = log w ++ transcript (staged_loop j) w
  /\ Forall (fun e => is_syscall e = true) (transcript (staged_loop j) w).
Proof.
  unfold staged_loop. destruct (async_operation_ j);
    rewrite ?__read_transfer, ?__write_transfer;
    try (split; [apply transfer_log
                |apply transfer_transcript_syscalls; intros; reflexivity]).
  unfold transcript, throw. simpl. rewrite skipn_all.
  split; [now rewrite app_nil_r|constructor].
Qed.

Lemma count_callbacks_syscalls (evs : list Event) :
  Forall (fun e => is_syscall e = true) evs -> filter is_callback evs = [].
Proof.
  induction 1 as [|e evs He _ IH]; simpl; [reflexivity|].
  destruct e; simpl in *; try discriminate; assumption.
Qed.

Lemma int_of_range (x : Z) : - 2 ^ 31 <= int_of x < 2 ^ 31.
Proof.
  unfold int_of, INT_MOD.
  assert (H : 0 <= (x + 2 ^ 31) mod 2 ^ 32 < 2 ^ 32) by (apply Z.mod_pos_bound; lia).
  lia.
Qed.

Lemma staged_loop_int (j : AsyncThread) (w w1 : World) (n : Z) :
  staged_loop j w = (Returned n, w1) -> - 2 ^ 31 <= n < 2 ^ 31.
Proof.
  unfold staged_loop.
  destruct (async_operation_ j);
    rewrite ?__read_transfer, ?__write_transfer, ?transfer_unfold;
    try match goal with
      | |- context [transfer_loop ?a ?b ?c ?d ?e ?f ?g] =>
          destruct (transfer_loop a b c d e f g) as [[[r|e0|] rest] evs]
      end; intros E; inversion E; apply int_of_range.
Qed.

(** The descriptor the worker routine leaves behind when the loop returns. *)
Lemma run_staged_des (user : Handlers) (w w1 : World) (n : Z) :
  async_operation_ (job_ (des w)) <> NONE ->
  staged_loop (job_ (des w)) w = (Returned n, w1) ->
  des (snd (run user w))
  = (let d := staged_code user (job_ (des w)) (size_t_of n)
                (set_lock false (des w)) in
     set_job (idle (job_ d)) d).
Proof.
  intros Hmode Hloop. pose proof (staged_loop_des (job_ (des w)) w) as Hdes.
  rewrite (run_staged user w Hmode), Hloop in *. simpl in Hdes. simpl.
  now rewrite Hdes.
Qed.

(** ** C6: what the worker routine does once the transfer has returned *)

(** C6 (as amended).  For every execution of the worker routine with a
    staged mode other than [NONE] in which the transfer loop returns a count
    [n]: (1) the system calls made are those of the loop matching the staged
    mode; (2) [unlock] comes next, before the callback, which finds the lock
    released; (3) exactly one callback is invoked, the buffer handler for the
    buffer modes and the raw handler for the raw modes, on the staged target
    and [n]; (4) the mode is [NONE] when the routine returns. *)
Theorem run_unlocks_then_calls_back
  (user : Handlers) (w w1 : World) (n : Z) :
  async_operation_ (job_ (des w)) <> NONE ->
  staged_loop (job_ (des w)) w = (Returned n, w1) ->
  let j := job_ (des w) in
  let cb := staged_callback j (size_t_of n) in
  fst (run user w) = Returned tt
  /\ transcript (run user) w = transcript (staged_loop j) w ++ [EvUnlock; cb]
  /\ filter is_callback (transcript (run user) w) = [cb]
  /\ (async_operation_ j = READ_BUFFER \/ async_operation_ j = WRITE_BUFFER ->
      cb = EvBuffHandler (buff_handler_ j) (buff_buffer_ j) (size_t_of n))
  /\ (async_operation_ j = READ_VOID \/ async_operation_ j = WRITE_VOID ->
      cb = EvVoidHandler (void_handler_ j) (void_buffer_ j) (size_t_of n))
  /\ (0 <= n -> size_t_of n = n)
  /\ des (snd (run user w))
     = (let d := staged_code user j (size_t_of n) (set_lock false (des w)) in
        set_job (idle (job_ d)) d)
  /\ async_operation_ (job_ (des (snd (run user w)))) = NONE
  /\ pending (snd (run user w)) = pending w1.
Proof.
  intros Hmode Hloop j cb.
  pose proof (staged_loop_des j w) as Hdes.
  destruct (staged_loop_log j w) as [Hlog Hsys].
  pose proof (staged_loop_int _ _ _ _ Hloop) as Hint.
  fold j in Hloop.
  assert (Htr : transcript (run user) w
                = transcript (staged_loop j) w ++ [EvUnlock; cb]).
  { unfold transcript at 1. rewrite (run_staged user w Hmode).
    fold j. rewrite Hloop. simpl in Hlog |- *. rewrite Hloop in Hlog.
    simpl in Hlog. rewrite Hlog, <- !app_assoc, skipn_length_app. reflexivity. }
  rewrite Htr. rewrite (run_staged user w Hmode). fold j. rewrite Hloop in *.
  simpl in Hdes. simpl. rewrite Hdes.
  split; [reflexivity|]. split; [reflexivity|].
  split.
  { rewrite filter_app, (count_callbacks_syscalls _ Hsys). simpl.
    unfold cb, staged_callback. destruct (async_operation_ j); reflexivity. }
  split.
  { unfold cb, staged_callback. intros [H|H]; rewrite H; reflexivity. }
  split.
  { unfold cb, staged_callback. intros [H|H]; rewrite H; reflexivity. }
  split.
  { intros Hn. apply size_t_of_small. unfold in_size_t, SIZE_MOD. lia. }
  repeat split.
Qed.

Lemma run_unlocks_then_calls_back_witness :
  transcript (run Sample.quiet)
    (Sample.staged (mkAsyncThread READ_BUFFER 8 1%nat Sample.buf8 2%nat 0 1%nat) [5; 3])
  = [EvSysRead 3 4096 8 5; EvSysRead 3 4101 3 3; EvUnlock;
     EvBuffHandler 1%nat Sample.buf8 8].
Proof.
  refine (proj1 (proj2 (run_unlocks_then_calls_back Sample.quiet
            (Sample.staged (mkAsyncThread READ_BUFFER 8 1%nat Sample.buf8 2%nat 0 1%nat)
               [5; 3])
            (mkWorld (mkPosixDescriptor 3 true
                        (mkAsyncThread READ_BUFFER 8 1%nat Sample.buf8 2%nat 0 1%nat))
               [] [EvSysRead 3 4096 8 5; EvSysRead 3 4101 3 3])
            8 _ _))).
  - simpl. discriminate.
  - reflexivity.
Defined.

(** C6 as stated fails when the transfer fails: with a read staged and
    [::read] reporting -1, the routine ends on the exception; the lock is
    still held, no callback has been invoked and the mode is still
    [READ_BUFFER]. *)
Lemma run_unlocks_then_calls_back_counterexample :
  let j := mkAsyncThread READ_BUFFER 8 1%nat Sample.buf8 2%nat 0 1%nat in
  let w := Sample.staged j [-1] in
  async_operation_ (job_ (des w)) <> NONE
  /\ fst (run Sample.quiet w) = Thrown "Read error"
  /\ transcript (run Sample.quiet) w = [EvSysRead 3 4096 8 (-1)]
  /\ filter is_callback (transcript (run Sample.quiet) w) = []
  /\ lock_ (des (snd (run Sample.quiet w))) = true
  /\ async_operation_ (job_ (des (snd (run Sample.quiet w)))) = READ_BUFFER.
Proof.
  split; [simpl; discriminate|]. repeat split; vm_compute; reflexivity.
Qed.

(** ** C7: an operation started from inside the callback *)

Lemma after_startAsyncOperation_Buffer
  (read_operation : bool) (h : fnptr) (b : Buffer) (s : Z) (d : PosixDescriptor) :
  after (startAsyncOperation_Buffer read_operation h b s) d
  = set_job (mkAsyncThread (if read_operation then READ_BUFFER else WRITE_BUFFER)
               s h b (void_handler_ (job_ d)) (void_buffer_ (job_ d))
               (S (launches (job_ d)))) d.
Proof. destruct read_operation; reflexivity. Qed.

Lemma after_startAsyncOperation_void
  (read_operation : bool) (h : fnptr) (p s : Z) (d : PosixDescriptor) :
  after (startAsyncOperation_void read_operation h p s) d
  = set_job (mkAsyncThread (if read_operation then READ_VOID else WRITE_VOID)
               s (buff_handler_ (job_ d)) (buff_buffer_ (job_ d)) h p
               (S (launches (job_ d)))) d.
Proof. destruct read_operation; reflexivity. Qed.

(** What becomes of an operation started by the completion callback on the
    same runner: the operation is staged (its mode is not [NONE]) and one
    more thread is asked for, but once the worker routine that invoked the
    callback has finished, the mode of the runner is [NONE]; of what the
    callback staged, the size, the target and the handler are kept, and the
    mode has been overwritten by the reset that follows the callback. *)
Lemma run_resets_mode_staged_by_callback
  (user : Handlers) (w w1 : World) (n : Z) (op : M unit) :
  async_operation_ (job_ (des w)) <> NONE ->
  staged_loop (job_ (des w)) w = (Returned n, w1) ->
  (exists r h b s, op = startAsyncOperation_Buffer r h b s)
  \/ (exists r h p s, op = startAsyncOperation_void r h p s) ->
  (forall d, staged_code user (job_ (des w)) (size_t_of n) d = after op d) ->
  let started := job_ (after op (set_lock false (des w))) in
  let final := job_ (des (snd (run user w))) in
  async_operation_ started <> NONE
  /\ launches started = S (launches (job_ (des w)))
  /\ final = idle started
  /\ async_operation_ final = NONE
  /\ async_operation_ final <> async_operation_ started.
Proof.
  intros Hmode Hloop Hop Hcode started final.
  pose proof (run_staged_des user w w1 n Hmode Hloop) as Hdes.
  assert (Hfinal : final = idle started).
  { unfold final, started. rewrite Hdes. simpl. now rewrite Hcode. }
  assert (Hstarted : async_operation_ started <> NONE
                     /\ launches started = S (launches (job_ (des w)))).
  { unfold started.
    destruct Hop as [[r [h [b [s Hop]]]]|[r [h [p [s Hop]]]]]; subst op.
    - rewrite after_startAsyncOperation_Buffer. simpl.
      split; [destruct r; discriminate|reflexivity].
    - rewrite after_startAsyncOperation_void. simpl.
      split; [destruct r; discriminate|reflexivity]. }
  destruct Hstarted as [Hnew Hlaunch].
  split; [exact Hnew|]. split; [exact Hlaunch|]. split; [exact Hfinal|].
  rewrite Hfinal. simpl. split; [reflexivity|]. congruence.
Qed.

Lemma run_resets_mode_staged_by_callback_witness :
  async_operation_
    (job_ (des (snd (run Sample.chained
                       (Sample.staged
                          (mkAsyncThread READ_BUFFER 8 1%nat Sample.buf8 2%nat 0 1%nat)
                          [8])))))
  = NONE.
Proof.
  refine (proj1 (proj2 (proj2 (proj2
            (run_resets_mode_staged_by_callback Sample.chained
               (Sample.staged
                  (mkAsyncThread READ_BUFFER 8 1%nat Sample.buf8 2%nat 0 1%nat) [8])
               (mkWorld (mkPosixDescriptor 3 true
                           (mkAsyncThread READ_BUFFER 8 1%nat Sample.buf8 2%nat 0 1%nat))
                  [] [EvSysRead 3 4096 8 8])
               8 (startAsyncOperation_Buffer false 7%nat Sample.buf8 8)
               _ _ _ _))))).
  - simpl. discriminate.
  - reflexivity.
  - left. exists false, 7%nat, Sample.buf8, 8. reflexivity.
  - intros d. reflexivity.
Defined.

(** C7 at work.  The callback of a completed read starts an asynchronous
    write of the 8 bytes read, on the same runner: the write is staged
    ([WRITE_BUFFER]) and a thread is asked for, but when the worker routine
    of the read returns the mode is [NONE] and not [WRITE_BUFFER], the reset
    coming after the callback; the write is never made, and the routine run
    for it finds nothing staged and throws. *)
Theorem callback_restart_is_overwritten :
  let j := mkAsyncThread READ_BUFFER 8 1%nat Sample.buf8 2%nat 0 1%nat in
  let w := Sample.staged j [8; 8] in
  let op := startAsyncOperation_Buffer false 7%nat Sample.buf8 8 in
  (forall d, staged_code Sample.chained j 8 d = after op d)
  /\ async_operation_ (job_ (after op (set_lock false (des w)))) = WRITE_BUFFER
  /\ fst (run Sample.chained w) = Returned tt
  /\ async_operation_ (job_ (des (snd (run Sample.chained w)))) = NONE
  /\ async_operation_ (job_ (des (snd (run Sample.chained w)))) <> WRITE_BUFFER
  /\ launches (job_ (des (snd (run Sample.chained w)))) = 2%nat
  /\ fst (run Sample.chained (snd (run Sample.chained w))) = Thrown "Async error".
Proof.
  split; [intros d; reflexivity|].
  repeat split; vm_compute; (reflexivity || discriminate).
Qed.

(** ** C10: the asynchronous path does not look at the capacity *)

(** C10.  [startAsyncOperation] on a [Buffer] stages the operation whatever
    the size and the capacity of the buffer, and asks for a thread; the
    worker routine then runs the loop of the staged direction on the storage
    of the buffer with that very size, before [unlock], the buffer handler
    and the reset. *)
Theorem async_path_skips_capacity_check
  (user : Handlers) (read_operation : bool) (h : fnptr) (b : Buffer) (s : Z)
  (w : World) :
  let w1 := snd (startAsyncOperation_Buffer read_operation h b s w) in
  let j1 := job_ (des w1) in
  fst (startAsyncOperation_Buffer read_operation h b s w) = Returned tt
  /\ async_operation_ j1 = (if read_operation then READ_BUFFER else WRITE_BUFFER)
  /\ size_ j1 = s
  /\ buff_buffer_ j1 = b
  /\ buff_handler_ j1 = h
  /\ launches j1 = S (launches (job_ (des w)))
  /\ transcript (startAsyncOperation_Buffer read_operation h b s) w = []
  /\ run user w1
     = (n <- (if read_operation then __read (getBuffer b) s
              else __write (getBuffer b) s) ;;
        unlock ;;
        call_buff_handler user h b (size_t_of n) ;;
        set_async_operation NONE) w1.
Proof.
  unfold transcript.
  destruct read_operation; simpl; rewrite skipn_all;
    (repeat (split; [reflexivity|]));
    rewrite run_staged by (simpl; discriminate);
    unfold staged_loop, staged_code, staged_callback; simpl;
    unfold mbind at 1;
    match goal with
    | |- context [match ?m ?x with _ => _ end] =>
        destruct (m x) as [[n|e|] w']
    end; reflexivity.
Qed.

(** A read of 16 bytes staged on a buffer of 8, and a read of 4 bytes staged
    on a buffer of capacity 0: [::read] is asked for 16 and for 4 bytes at
    the storage of the buffer, where the synchronous [read] answers -1
    without any call. *)
Example async_read_beyond_capacity :
  transcript (startAsyncOperation_Buffer true 1%nat Sample.buf8 16 ;; run Sample.quiet)
    (Sample.world [16])
  = [EvSysRead 3 4096 16 16; EvUnlock; EvBuffHandler 1%nat Sample.buf8 16]
  /\ transcript (startAsyncOperation_Buffer true 1%nat Sample.buf0 4 ;; run Sample.quiet)
       (Sample.world [4])
     = [EvSysRead 3 4096 4 4; EvUnlock; EvBuffHandler 1%nat Sample.buf0 4]
  /\ read_Buffer Sample.buf8 16 (Sample.world [16])
     = (Returned (-1),
        mkWorld (des (Sample.world [16])) [16] [EvDebug "Buffer size not enough!"]).
Proof. repeat split; vm_compute; reflexivity. Qed.

(** * Further properties of the loops *)

Section LoopGeometry.

Variable sys : Z -> Z -> Z -> Z -> Event.
Variable what : string.
Variables fd buffer size : Z.
Hypothesis size_ok : in_size_t size.
Hypothesis within_sys : forall f a c ret, within_request (sys f a c ret) = (ret <=? c).
Hypothesis buf_sys : forall f a c ret, call_buf (sys f a c ret) = a.
Hypothesis count_sys : forall f a c ret, call_count (sys f a c ret) = c.
Hypothesis ret_sys : forall f a c ret, call_ret (sys f a c ret) = ret.

(** Every call is directed at the unfilled tail of the region and asks for
    what is left of it. *)
Lemma transfer_loop_inside (script : list Z) :
  forall remaining o rest evs,
    0 <= remaining <= size ->
    transfer_loop sys what fd buffer size remaining script = (o, rest, evs) ->
    Forall (fun e => within_request e = true) evs ->
    Forall (inside buffer size) evs.
Proof.
  induction script as [|ret script IH]; intros remaining o rest evs Hrem; simpl.
  - destruct (0 <? remaining); intros E; inversion E; constructor.
  - destruct (Z.ltb_spec 0 remaining); [|intros E; inversion E; constructor].
    assert (Hev : forall r, inside buffer size
                    (sys fd (buffer + size_sub size remaining) remaining r)).
    { intros r. unfold inside. rewrite buf_sys, count_sys.
      rewrite size_sub_small by (auto; lia). lia. }
    destruct (Z.eqb_spec ret 0);
      [intros E; inversion E; repeat constructor; apply Hev|].
    destruct (Z.ltb_spec ret 0);
      [intros E; inversion E; repeat constructor; apply Hev|].
    destruct (transfer_loop sys what fd buffer size (size_sub remaining ret) script)
      as [[o' r'] e'] eqn:E'.
    intros E Hin; inversion E; subst. inversion Hin as [|? ? Hhd Htl]; subst.
    rewrite within_sys in Hhd. apply Z.leb_le in Hhd.
    rewrite size_sub_small in E' by (unfold in_size_t in *; lia).
    constructor; [apply Hev|]. eapply IH; [|exact E'|exact Htl]. lia.
Qed.

(** Each call but the last one transfers at least one byte: there are at
    most [remaining] calls. *)
Lemma transfer_loop_calls_bound (script : list Z) :
  forall remaining o rest evs,
    0 <= remaining <= size ->
    transfer_loop sys what fd buffer size remaining script = (o, rest, evs) ->
    Forall (fun e => within_request e = true) evs ->
    Z.of_nat (List.length evs) <= remaining.
Proof.
  induction script as [|ret script IH]; intros remaining o rest evs Hrem; simpl.
  - destruct (0 <? remaining); intros E; inversion E; simpl; lia.
  - destruct (Z.ltb_spec 0 remaining); [|intros E; inversion E; simpl; lia].
    destruct (Z.eqb_spec ret 0); [intros E; inversion E; simpl; lia|].
    destruct (Z.ltb_spec ret 0); [intros E; inversion E; simpl; lia|].
    destruct (transfer_loop sys what fd buffer size (size_sub remaining ret) script)
      as [[o' r'] e'] eqn:E'.
    intros E Hin; inversion E; subst. inversion Hin as [|? ? Hhd Htl]; subst.
    rewrite within_sys in Hhd. apply Z.leb_le in Hhd.
    rewrite size_sub_small in E' by (unfold in_size_t in *; lia).
    assert (Hle : Z.of_nat (List.length e') <= remaining - ret)
      by (eapply IH; [|exact E'|exact Htl]; lia).
    simpl List.length. lia.
Qed.

(** When the loop returns, what the calls reported adds up to what is no
    longer remaining. *)
Lemma transfer_loop_transferred (script : list Z) :
  forall remaining r rest evs,
    0 <= remaining <= size ->
    transfer_loop sys what fd buffer size remaining script = (Returned r, rest, evs) ->
    Forall (fun e => within_request e = true) evs ->
    transferred evs = remaining - r /\ 0 <= r <= remaining.
Proof.
  unfold transferred.
  induction script as [|ret script IH]; intros remaining r rest evs Hrem; simpl.
  - destruct (Z.ltb_spec 0 remaining); intros E; inversion E; subst; simpl; lia.
  - destruct (Z.ltb_spec 0 remaining); [|intros E; inversion E; subst; simpl; lia].
    destruct (Z.eqb_spec ret 0).
    { intros E; inversion E; subst. simpl. rewrite ret_sys. lia. }
    destruct (Z.ltb_spec ret 0); [discriminate|].
    destruct (transfer_loop sys what fd buffer size (size_sub remaining ret) script)
      as [[o' r'] e'] eqn:E'.
    intros E Hin; inversion E; subst. inversion Hin as [|? ? Hhd Htl]; subst.
    rewrite within_sys in Hhd. apply Z.leb_le in Hhd.
    rewrite size_sub_small in E' by (unfold in_size_t in *; lia).
    assert (Hrem' : 0 <= remaining - ret <= size) by lia.
    destruct (IH _ _ _ _ Hrem' E' Htl) as [Hsum Hr].
    simpl. rewrite ret_sys. lia.
Qed.

End LoopGeometry.

Lemma transfer_geometry (sys : Z -> Z -> Z -> Z -> Event) (what : string)
  (buf s : Z) (w : World) :
  (forall f a c ret, within_request (sys f a c ret) = (ret <=? c)) ->
  (forall f a c ret, call_buf (sys f a c ret) = a) ->
  (forall f a c ret, call_count (sys f a c ret) = c) ->
  (forall f a c ret, call_ret (sys f a c ret) = ret) ->
  in_size_t s ->
  Forall (fun e => within_request e = true) (transcript (transfer sys what buf s) w) ->
  Forall (inside buf s) (transcript (transfer sys what buf s) w)
  /\ Z.of_nat (List.length (transcript (transfer sys what buf s) w)) <= s
  /\ forall n w', transfer sys what buf s w = (Returned n, w') ->
       n = int_of (transferred (transcript (transfer sys what buf s) w))
       /\ 0 <= transferred (transcript (transfer sys what buf s) w) <= s.
Proof.
  intros Hw Hb Hc Hr Hs. unfold transcript. rewrite transfer_unfold.
  destruct (transfer_loop sys what (fd_ (des w)) buf s s (pending w))
    as [[o rest] evs] eqn:E. simpl. rewrite skipn_length_app. intros Hin.
  assert (Hrem : 0 <= s <= s) by (unfold in_size_t in Hs; lia).
  split; [eapply transfer_loop_inside; eauto|].
  split; [eapply transfer_loop_calls_bound; eauto|].
  intros n w' Hrun. destruct o as [r| |]; try discriminate.
  inversion Hrun; subst; clear Hrun.
  destruct (transfer_loop_transferred sys what _ _ _ Hs Hw Hr _ _ _ _ _ Hrem E Hin)
    as [Hsum Hrange].
  rewrite size_sub_small by (auto; lia). rewrite Hsum. split; [reflexivity|lia].
Qed.

(** ** The calls never leave the region they were given *)

(** As long as no call reports more than it was asked for, every [::read]
    issued by [__read], and every [::write] issued by [__write], asks for at
    least one byte, starts at or after [buf] and ends exactly at [buf + s]:
    no call reaches outside the region of [s] bytes the loop was given. *)
Theorem calls_stay_inside_region (w : World) (buf s : Z) :
  in_size_t s ->
  (Forall (fun e => within_request e = true) (transcript (__read buf s) w) ->
   Forall (inside buf s) (transcript (__read buf s) w))
  /\ (Forall (fun e => within_request e = true) (transcript (__write buf s) w) ->
      Forall (inside buf s) (transcript (__write buf s) w)).
Proof.
  intros Hs. rewrite __read_transfer, __write_transfer.
  split; intros Hin;
    eapply transfer_geometry; eauto; intros; reflexivity.
Qed.

Lemma calls_stay_inside_region_witness :
  Forall (inside 4096 8) (transcript (__read 4096 8) (Sample.world [3; 2; 0; 7]))
  /\ Forall (inside 4096 8) (transcript (__write 4096 8) (Sample.world [3; 5])).
Proof.
  assert (Hs : in_size_t 8) by (unfold in_size_t, SIZE_MOD; lia).
  split.
  - apply (proj1 (calls_stay_inside_region (Sample.world [3; 2; 0; 7]) 4096 8 Hs)).
    repeat constructor.
  - apply (proj2 (calls_stay_inside_region (Sample.world [3; 5]) 4096 8 Hs)).
    repeat constructor.
Defined.

(** ** The number of calls is bounded by the size *)

(** As long as no call reports more than it was asked for, [__read] and
    [__write] make at most [s] system calls for a request of [s] bytes,
    whatever the outcome: the loops cannot spin. *)
Theorem calls_at_most_size (w : World) (buf s : Z) :
  in_size_t s ->
  (Forall (fun e => within_request e = true) (transcript (__read buf s) w) ->
   Z.of_nat (List.length (transcript (__read buf s) w)) <= s)
  /\ (Forall (fun e => within_request e = true) (transcript (__write buf s) w) ->
      Z.of_nat (List.length (transcript (__write buf s) w)) <= s).
Proof.
  intros Hs. rewrite __read_transfer, __write_transfer.
  split; intros Hin;
    eapply transfer_geometry; eauto; intros; reflexivity.
Qed.

Lemma calls_at_most_size_witness :
  Z.of_nat (List.length (transcript (__read 4096 3) (Sample.world [1; 1; 1; 1]))) <= 3
  /\ Z.of_nat (List.length (transcript (__write 4096 3) (Sample.world [1; -1; 1]))) <= 3.
Proof.
  assert (Hs : in_size_t 3) by (unfold in_size_t, SIZE_MOD; lia).
  split.
  - apply (proj1 (calls_at_most_size (Sample.world [1; 1; 1; 1]) 4096 3 Hs)).
    repeat constructor.
  - apply (proj2 (calls_at_most_size (Sample.world [1; -1; 1]) 4096 3 Hs)).
    repeat constructor.
Defined.

(** ** The count returned is the number of bytes transferred *)

(** As long as no call reports more than it was asked for, a count [n]
    returned by [__read] or [__write] is what the system calls made have
    reported in total, between 0 and [s], seen through the [int] result; it
    is that total itself whenever the total is at most [INT_MAX]. *)
Theorem returned_count_is_bytes_transferred (w w' : World) (buf s n : Z) :
  in_size_t s ->
  (__read buf s w = (Returned n, w') ->
   Forall (fun e => within_request e = true) (transcript (__read buf s) w) ->
   let t := transferred (transcript (__read buf s) w) in
   0 <= t <= s /\ n = int_of t /\ (t <= INT_MAX -> n = t))
  /\ (__write buf s w = (Returned n, w') ->
      Forall (fun e => within_request e = true) (transcript (__write buf s) w) ->
      let t := transferred (transcript (__write buf s) w) in
      0 <= t <= s /\ n = int_of t /\ (t <= INT_MAX -> n = t)).
Proof.
  intros Hs. rewrite __read_transfer, __write_transfer.
  split; intros Hrun Hin t;
    (edestruct transfer_geometry as [_ [_ Hn]];
     [..|exact Hs|exact Hin|]; try (intros; reflexivity);
     destruct (Hn _ _ Hrun) as [Hnt Hrange]; fold t in Hnt, Hrange;
     split; [exact Hrange|split; [exact Hnt|]];
     intros Hmax; rewrite Hnt; apply int_of_small; unfold INT_MAX in *; lia).
Qed.

Lemma returned_count_is_bytes_transferred_witness :
  let t := transferred (transcript (__read 4096 8) (Sample.world [3; 2; 0; 7])) in
  0 <= t <= 8 /\ 5 = int_of t /\ (t <= INT_MAX -> 5 = t).
Proof.
  assert (Hs : in_size_t 8) by (unfold in_size_t, SIZE_MOD; lia).
  refine (proj1 (returned_count_is_bytes_transferred (Sample.world [3; 2; 0; 7])
                   (mkWorld (des (Sample.world [])) [7]
                      [EvSysRead 3 4096 8 3; EvSysRead 3 4099 5 2;
                       EvSysRead 3 4101 3 0])
                   4096 8 5 Hs) _ _).
  - reflexivity.
  - repeat constructor.
Defined.

(** ** A write whose data is accepted is complete *)

Lemma sent_calls (fd buf size : Z) (pre : list Z) (a : Z) :
  forall remaining,
    Forall (fun ret => 0 < ret) pre ->
    sent (calls EvSysWrite fd buf size remaining pre) a = true
    <-> buf + (size - remaining) <= a < buf + (size - remaining) + total pre.
Proof.
  induction pre as [|ret pre IH]; intros remaining Hpos; simpl.
  - split; [discriminate|lia].
  - inversion Hpos as [|? ? Hret Hpos']; subst.
    pose proof (total_nonneg _ Hpos') as Htot.
    rewrite orb_true_iff, andb_true_iff, Z.leb_le, Z.ltb_lt, (IH _ Hpos'). lia.
Qed.

(** For every size [s] up to [INT_MAX], if [::write], called on the unsent
    tail of the region, reports positive counts [pre] adding up to [s], then
    [__write] returns exactly [s], leaves the rest of the script untouched,
    and the bytes taken are exactly those of [buf, buf + s).  So do [write]
    from a buffer whose capacity is not zero and at least [s], and [write] of
    a string of [s] characters, which sends the characters and nothing more
    (no terminator). *)
Theorem write_delivers_requested_size
  (w : World) (buf s : Z) (pre post : list Z) :
  pending w = pre ++ post ->
  Forall (fun ret => 0 < ret) pre ->
  total pre = s ->
  s <= INT_MAX ->
  (fst (__write buf s w) = Returned s
   /\ pending (snd (__write buf s w)) = post
   /\ forall a, sent (transcript (__write buf s) w) a = true <-> buf <= a < buf + s)
  /\ (forall b : Buffer,
        getSize b <> 0 -> s <= getSize b ->
        fst (write_Buffer b s w) = Returned s
        /\ forall a, sent (transcript (write_Buffer b s) w) a = true
                     <-> getBuffer b <= a < getBuffer b + s)
  /\ (forall str : StdString,
        size str = s ->
        fst (write_string str w) = Returned (size str)
        /\ forall a, sent (transcript (write_string str) w) a = true
                     <-> c_str str <= a < c_str str + size str).
Proof.
  intros Hp Hpos Htot Hmax.
  pose proof (total_nonneg _ Hpos) as H0.
  assert (Hs : in_size_t s) by (unfold in_size_t, INT_MAX, SIZE_MOD in *; lia).
  assert (Hint : int_of s = s) by (apply int_of_small; unfold INT_MAX in *; lia).
  assert (Hraw : forall p,
             fst (__write p s w) = Returned s
             /\ pending (snd (__write p s w)) = post
             /\ forall a, sent (transcript (__write p s) w) a = true
                          <-> p <= a < p + s).
  { intros p. unfold transcript. rewrite __write_transfer.
    rewrite (transfer_full _ _ p s w pre post) by assumption.
    simpl. rewrite skipn_length_app.
    split; [congruence|split; [reflexivity|]].
    intros a. rewrite sent_calls by assumption. lia. }
  split; [apply Hraw|]. split.
  - intros b Hcap Hle. rewrite (write_Buffer_valid b s Hcap Hle).
    destruct (Hraw (getBuffer b)) as [Hr [_ Hsent]]. auto.
  - intros str Hsize. unfold write_string. rewrite Hsize.
    destruct (Hraw (c_str str)) as [Hr [_ Hsent]]. auto.
Qed.

Lemma write_delivers_requested_size_witness :
  fst (__write 4096 8 (Sample.world [5; 3; 9])) = Returned 8
  /\ fst (write_string (mkStdString 4096 "12345678") (Sample.world [5; 3; 9]))
     = Returned 8.
Proof.
  assert (H : pending (Sample.world [5; 3; 9]) = [5; 3] ++ [9]) by reflexivity.
  assert (Hpos : Forall (fun ret => 0 < ret) [5; 3]) by (repeat constructor; lia).
  assert (Htot : total [5; 3] = 8) by reflexivity.
  assert (Hmax : 8 <= INT_MAX) by (unfold INT_MAX; lia).
  destruct (write_delivers_requested_size _ 4096 8 _ _ H Hpos Htot Hmax)
    as [[Hloop _] [_ Hstr]].
  split; [exact Hloop|].
  apply (Hstr (mkStdString 4096 "12345678")). reflexivity.
Defined.

(** ** Transfers of no byte *)

Lemma world_eta (w : World) : mkWorld (des w) (pending w) (log w ++ []) = w.
Proof. destruct w; simpl. now rewrite app_nil_r. Qed.

(** A request for 0 bytes makes no system call and consumes nothing of the
    script: [__read], [__write] and the raw [write] return 0 and leave the
    world as it is, and so do [write] of the empty string and [write] from a
    buffer whose capacity is not zero; the raw [read] returns 0 after a
    [lock] and an [unlock] alone, and so does [read] into such a buffer. *)
Theorem zero_size_transfer_makes_no_call (w : World) (p : Z) :
  __read p 0 w = (Returned 0, w)
  /\ __write p 0 w = (Returned 0, w)
  /\ write_void p 0 w = (Returned 0, w)
  /\ write_string (mkStdString p "") w = (Returned 0, w)
  /\ (fst (read_void p 0 w) = Returned 0
      /\ pending (snd (read_void p 0 w)) = pending w
      /\ transcript (read_void p 0) w = [EvLock; EvUnlock])
  /\ forall b, 0 < getSize b ->
       fst (read_Buffer b 0 w) = Returned 0
       /\ pending (snd (read_Buffer b 0 w)) = pending w
       /\ transcript (read_Buffer b 0) w = [EvLock; EvUnlock]
       /\ write_Buffer b 0 w = (Returned 0, w).
Proof.
  assert (Hloop : forall sys what buf w0,
             transfer sys what buf 0 w0 = (Returned 0, w0)).
  { intros sys what buf w0. rewrite transfer_unfold.
    assert (E : transfer_loop sys what (fd_ (des w0)) buf 0 0 (pending w0)
                = (Returned 0, pending w0, [])).
    { destruct (pending w0); reflexivity. }
    rewrite E. now rewrite world_eta. }
  assert (Hread : fst (read_void p 0 w) = Returned 0
                  /\ pending (snd (read_void p 0 w)) = pending w
                  /\ transcript (read_void p 0) w = [EvLock; EvUnlock]).
  { unfold transcript. rewrite read_void_unfold, __read_transfer, Hloop. simpl.
    rewrite <- app_assoc, skipn_length_app. auto. }
  split; [rewrite __read_transfer; apply Hloop|].
  split; [rewrite __write_transfer; apply Hloop|].
  split; [unfold write_void; rewrite __write_transfer; apply Hloop|].
  split; [unfold write_string; simpl; rewrite __write_transfer; apply Hloop|].
  split; [exact Hread|].
  intros b Hcap.
  assert (Hnz : getSize b <> 0) by lia.
  assert (Hle : 0 <= getSize b) by lia.
  rewrite (read_Buffer_valid b 0 Hnz Hle), (write_Buffer_valid b 0 Hnz Hle).
  rewrite __write_transfer, Hloop.
  unfold transcript. rewrite read_void_unfold, __read_transfer, Hloop. simpl.
  rewrite <- app_assoc, skipn_length_app. auto.
Qed.

Lemma zero_size_transfer_makes_no_call_witness :
  transcript (read_Buffer Sample.buf8 0) (Sample.world [5]) = [EvLock; EvUnlock]
  /\ write_Buffer Sample.buf8 0 (Sample.world [5]) = (Returned 0, Sample.world [5]).
Proof.
  destruct (zero_size_transfer_makes_no_call (Sample.world [5]) 4096)
    as [_ [_ [_ [_ [_ Hbuf]]]]].
  assert (Hcap : 0 < getSize Sample.buf8) by (simpl; lia).
  destruct (Hbuf Sample.buf8 Hcap) as [_ [_ [Htr Hw]]].
  split; assumption.
Defined.

(** ** The lock around the synchronous calls *)

Lemma transfer_loop_thrown (sys : Z -> Z -> Z -> Z -> Event) (what : string)
  (fd buffer size : Z) (script : list Z) :
  forall remaining e rest evs,
    transfer_loop sys what fd buffer size remaining script = (Thrown e, rest, evs) ->
    e = what.
Proof.
  induction script as [|ret script IH]; intros remaining e rest evs; simpl.
  - destruct (0 <? remaining); discriminate.
  - destruct (0 <? remaining); [|discriminate].
    destruct (ret =? 0); [discriminate|].
    destruct (ret <? 0); [intros E; inversion E; reflexivity|].
    destruct (transfer_loop sys what fd buffer size (size_sub remaining ret) script)
      as [[o' r'] e'] eqn:E'.
    intros E; inversion E; subst. eapply IH; eassumption.
Qed.

Lemma no_lock_event_syscalls (evs : list Event) :
  Forall (fun e => is_syscall e = true) evs ->
  Forall (fun e => is_lock_event e = false) evs.
Proof.
  induction 1 as [|e evs He _ IH]; constructor; [|assumption].
  destruct e; simpl in *; congruence.
Qed.

(** A synchronous [read] that returns a count has taken the lock, run the
    loop and released the lock, in this order and with nothing else in
    between; the count is the one of the loop and the lock is free
    afterwards.  This holds for the raw overload and for the [Buffer]
    overload on a buffer that can hold the request. *)
Theorem read_returns_with_lock_released (w w' : World) (p s n : Z) :
  (read_void p s w = (Returned n, w') ->
   transcript (read_void p s) w = EvLock :: transcript (__read p s) w ++ [EvUnlock]
   /\ fst (__read p s w) = Returned n
   /\ lock_ (des w') = false)
  /\ forall b, getBuffer b = p -> getSize b <> 0 -> s <= getSize b ->
       read_Buffer b s w = (Returned n, w') ->
       transcript (read_Buffer b s) w
       = EvLock :: transcript (__read p s) w ++ [EvUnlock]
       /\ fst (__read p s w) = Returned n
       /\ lock_ (des w') = false.
Proof.
  assert (Hraw : read_void p s w = (Returned n, w') ->
                 transcript (read_void p s) w
                 = EvLock :: transcript (__read p s) w ++ [EvUnlock]
                 /\ fst (__read p s w) = Returned n
                 /\ lock_ (des w') = false).
  { intros Hrun. destruct (read_void_locks p s n w w' Hrun) as [Htr Hlock].
    split; [exact Htr|]. split; [|exact Hlock].
    rewrite read_void_unfold in Hrun.
    destruct (transfer_same EvSysRead "Read error" p s (locked w) w
                eq_refl eq_refl) as [Hfst _].
    rewrite <- !__read_transfer in Hfst. rewrite <- Hfst.
    destruct (__read p s (locked w)) as [[m|e|] w1]; inversion Hrun; reflexivity. }
  split; [exact Hraw|].
  intros b Hb Hcap Hle. subst p.
  rewrite (read_Buffer_valid b s Hcap Hle). exact Hraw.
Qed.

Lemma read_returns_with_lock_released_witness :
  transcript (read_void 4096 8) (Sample.world [5; 3])
  = EvLock :: transcript (__read 4096 8) (Sample.world [5; 3]) ++ [EvUnlock].
Proof.
  refine (proj1 (proj1 (read_returns_with_lock_released (Sample.world [5; 3])
                          (mkWorld (des (Sample.world [])) []
                             [EvLock; EvSysRead 3 4096 8 5; EvSysRead 3 4101 3 3;
                              EvUnlock])
                          4096 8 8) _)).
  reflexivity.
Defined.

(** A synchronous [read] that ends on an exception has not released the
    lock: the exception is the "Read error" of the loop, the lock is held
    when it reaches the caller and no [unlock] has been logged.  This holds
    for both overloads, whatever the buffer. *)
Theorem read_failure_leaves_lock_held (w : World) (p s : Z) (e : string) :
  (fst (read_void p s w) = Thrown e ->
   e = "Read error"%string
   /\ lock_ (des (snd (read_void p s w))) = true
   /\ ~ In EvUnlock (transcript (read_void p s) w))
  /\ forall b, getBuffer b = p ->
       fst (read_Buffer b s w) = Thrown e ->
       e = "Read error"%string
       /\ lock_ (des (snd (read_Buffer b s w))) = true
       /\ ~ In EvUnlock (transcript (read_Buffer b s) w).
Proof.
  assert (Hraw : fst (read_void p s w) = Thrown e ->
                 e = "Read error"%string
                 /\ lock_ (des (snd (read_void p s w))) = true
                 /\ ~ In EvUnlock (transcript (read_void p s) w)).
  { unfold transcript. rewrite read_void_unfold, __read_transfer, transfer_unfold.
    change (fd_ (des (locked w))) with (fd_ (des w)).
    change (pending (locked w)) with (pending w).
    destruct (transfer_loop EvSysRead "Read error" (fd_ (des w)) p s s (pending w))
      as [[[r|e0|] rest] evs] eqn:E; simpl; try discriminate.
    intros He. inversion He; subst e0.
    split; [eapply transfer_loop_thrown; exact E|]. split; [reflexivity|].
    rewrite <- !app_assoc, skipn_length_app. simpl.
    intros [Hin|Hin]; [discriminate|].
    assert (Hsys : Forall (fun ev => is_syscall ev = true) evs).
    { eapply is_syscall_calls; [|exact E]. intros; reflexivity. }
    rewrite Forall_forall in Hsys. apply Hsys in Hin. discriminate. }
  split; [exact Hraw|].
  intros b Hb. subst p. unfold read_Buffer at 1.
  destruct ((getSize b =? 0) || (getSize b <? s)) eqn:Hguard.
  - unfold mbind, DEBUG, mret. simpl. discriminate.
  - intros He.
    assert (Heq : read_Buffer b s = read_void (getBuffer b) s).
    { unfold read_Buffer, read_void. now rewrite Hguard. }
    rewrite Heq. apply Hraw. exact He.
Qed.

Lemma read_failure_leaves_lock_held_witness :
  lock_ (des (snd (read_void 4096 8 (Sample.world [5; -1])))) = true.
Proof.
  refine (proj1 (proj2 (proj1 (read_failure_leaves_lock_held
                                 (Sample.world [5; -1]) 4096 8 "Read error") _))).
  reflexivity.
Defined.

(** No [write] overload ever takes or releases the lock, whatever its
    arguments and whatever its outcome: its log holds no lock event, and the
    lock is left as it was found, held or free. *)
Theorem write_never_touches_lock (w : World) (p s : Z) (b : Buffer) (str : StdString) :
  (Forall (fun e => is_lock_event e = false) (transcript (write_void p s) w)
   /\ lock_ (des (snd (write_void p s w))) = lock_ (des w))
  /\ (Forall (fun e => is_lock_event e = false) (transcript (write_Buffer b s) w)
      /\ lock_ (des (snd (write_Buffer b s w))) = lock_ (des w))
  /\ (Forall (fun e => is_lock_event e = false) (transcript (write_string str) w)
      /\ lock_ (des (snd (write_string str w))) = lock_ (des w)).
Proof.
  assert (Hraw : forall q n,
             Forall (fun e => is_lock_event e = false) (transcript (__write q n) w)
             /\ lock_ (des (snd (__write q n w))) = lock_ (des w)).
  { intros q n. rewrite __write_transfer. split.
    - apply no_lock_event_syscalls, transfer_transcript_syscalls.
      intros; reflexivity.
    - now rewrite transfer_des. }
  split; [apply Hraw|]. split; [|apply Hraw].
  unfold write_Buffer.
  destruct ((getSize b =? 0) || (getSize b <? s)); [|apply Hraw].
  unfold transcript, mbind, DEBUG, mret, emit. simpl.
  rewrite skipn_length_app. split; [repeat constructor|reflexivity].
Qed.

(** * Further properties of the asynchronous runner *)

Lemma run_idle (user : Handlers) (w : World) :
  async_operation_ (job_ (des w)) = NONE ->
  run user w
  = (Thrown "Async error", emit (EvDebug "Handler called without operation!") w).
Proof.
  intros Hnone. unfold run, mbind, get_job. rewrite Hnone. reflexivity.
Qed.

Lemma run_cases (user : Handlers) (w : World) :
  async_operation_ (job_ (des w)) = NONE
  \/ async_operation_ (job_ (des w)) <> NONE.
Proof. destruct (async_operation_ (job_ (des w))); (now left) || (right; discriminate). Qed.

(** When the worker routine ends on an exception, whatever the exception,
    the descriptor is exactly as the routine found it (the lock taken for
    the operation is still held, the mode is still the staged one), no
    [unlock] has been logged and no callback has been invoked. *)
Theorem run_failure_leaves_descriptor (user : Handlers) (w : World) (e : string) :
  fst (run user w) = Thrown e ->
  des (snd (run user w)) = des w
  /\ ~ In EvUnlock (transcript (run user) w)
  /\ filter is_callback (transcript (run user) w) = [].
Proof.
  destruct (run_cases user w) as [Hnone|Hmode].
  - intros _. unfold transcript. rewrite (run_idle user w Hnone). simpl.
    rewrite skipn_length_app. split; [reflexivity|]. split; [|reflexivity].
    intros [H|[]]. discriminate.
  - pose proof (staged_loop_des (job_ (des w)) w) as Hdes.
    destruct (staged_loop_log (job_ (des w)) w) as [_ Hsys].
    unfold transcript in *. rewrite (run_staged user w Hmode).
    destruct (staged_loop (job_ (des w)) w) as [[n|e0|] w1]; simpl in *;
      try discriminate.
    intros _. split; [exact Hdes|]. split.
    + intros Hin. rewrite Forall_forall in Hsys. apply Hsys in Hin. discriminate.
    + now apply count_callbacks_syscalls.
Qed.

Lemma run_failure_leaves_descriptor_witness :
  des (snd (run Sample.quiet
              (Sample.staged
                 (mkAsyncThread WRITE_VOID 8 1%nat Sample.buf8 2%nat 4096 1%nat)
                 [5; -1])))
  = mkPosixDescriptor 3 true
      (mkAsyncThread WRITE_VOID 8 1%nat Sample.buf8 2%nat 4096 1%nat).
Proof.
  refine (proj1 (run_failure_leaves_descriptor Sample.quiet
                   (Sample.staged
                      (mkAsyncThread WRITE_VOID 8 1%nat Sample.buf8 2%nat 4096 1%nat)
                      [5; -1])
                   "Write error" _)).
  reflexivity.
Defined.

(** The worker routine is one-shot: after any execution that returns,
    whatever the callback did to the runner, the mode is [NONE], and the
    routine run once more without a new staging throws "Async error". *)
Theorem run_is_one_shot (user : Handlers) (w : World) :
  fst (run user w) = Returned tt ->
  async_operation_ (job_ (des (snd (run user w)))) = NONE
  /\ fst (run user (snd (run user w))) = Thrown "Async error".
Proof.
  intros Hret.
  assert (Hnone : async_operation_ (job_ (des (snd (run user w)))) = NONE).
  { destruct (run_cases user w) as [Hnone|Hmode].
    - rewrite (run_idle user w Hnone) in Hret. discriminate.
    - rewrite (run_staged user w Hmode) in *.
      destruct (staged_loop (job_ (des w)) w) as [[n|e0|] w1]; simpl in *;
        try discriminate.
      reflexivity. }
  split; [exact Hnone|]. now rewrite (run_idle user _ Hnone).
Qed.

Lemma run_is_one_shot_witness :
  fst (run Sample.chained
         (snd (run Sample.chained
                 (Sample.staged
                    (mkAsyncThread READ_BUFFER 8 1%nat Sample.buf8 2%nat 0 1%nat)
                    [8; 8]))))
  = Thrown "Async error".
Proof.
  refine (proj2 (run_is_one_shot Sample.chained
                   (Sample.staged
                      (mkAsyncThread READ_BUFFER 8 1%nat Sample.buf8 2%nat 0 1%nat)
                      [8; 8]) _)).
  reflexivity.
Defined.

(** Staging an operation and running the worker routine, whatever the
    runner held before (mode, handlers and targets of earlier operations):
    when the transfer returns a count [n], the system calls are those of the
    loop of the requested direction on the target just staged, then comes
    [unlock], then exactly the handler just passed, on the target just passed
    and [n].  This holds for the [Buffer] overload and for the raw one. *)
Theorem staging_selects_handler_and_target
  (user : Handlers) (w : World) (read_operation : bool) (h : fnptr) (s n : Z)
  (b : Buffer) (p : Z) :
  (fst ((if read_operation then __read (getBuffer b) s
         else __write (getBuffer b) s) w) = Returned n ->
   fst ((startAsyncOperation_Buffer read_operation h b s ;; run user) w) = Returned tt
   /\ transcript (startAsyncOperation_Buffer read_operation h b s ;; run user) w
      = transcript (if read_operation then __read (getBuffer b) s
                    else __write (getBuffer b) s) w
        ++ [EvUnlock; EvBuffHandler h b (size_t_of n)])
  /\ (fst ((if read_operation then __read p s else __write p s) w) = Returned n ->
      fst ((startAsyncOperation_void read_operation h p s ;; run user) w) = Returned tt
      /\ transcript (startAsyncOperation_void read_operation h p s ;; run user) w
         = transcript (if read_operation then __read p s else __write p s) w
           ++ [EvUnlock; EvVoidHandler h p (size_t_of n)]).
Proof.
  assert (Hseq : forall (stage : M unit) ws,
             stage w = (Returned tt, ws) ->
             (stage ;; run user) w = run user ws).
  { intros stage ws Hst. unfold mbind. now rewrite Hst. }
  split; intros Hloop; unfold transcript;
    destruct read_operation;
    (erewrite Hseq by reflexivity);
    rewrite run_staged by (simpl; discriminate);
    unfold staged_loop, staged_callback; simpl;
    rewrite ?__read_transfer, ?__write_transfer in *;
    rewrite !transfer_unfold in *; simpl in *;
    match goal with
    | |- context [transfer_loop ?a ?b ?c ?d ?e ?f ?g] =>
        destruct (transfer_loop a b c d e f g) as [[[r0|e0|] rest] evs]
    end; simpl in *; try discriminate;
    inversion Hloop; subst;
    rewrite <- !app_assoc, !skipn_length_app; split; reflexivity.
Qed.

Lemma staging_selects_handler_and_target_witness :
  transcript (startAsyncOperation_void false 5%nat 8192 4 ;; run Sample.quiet)
    (Sample.staged
       (mkAsyncThread READ_BUFFER 8 1%nat Sample.buf8 2%nat 4096 1%nat) [4])
  = transcript (__write 8192 4)
      (Sample.staged
         (mkAsyncThread READ_BUFFER 8 1%nat Sample.buf8 2%nat 4096 1%nat) [4])
    ++ [EvUnlock; EvVoidHandler 5%nat 8192 4].
Proof.
  refine (proj2 (proj2 (staging_selects_handler_and_target Sample.quiet
            (Sample.staged
               (mkAsyncThread READ_BUFFER 8 1%nat Sample.buf8 2%nat 4096 1%nat) [4])
            false 5%nat 4 4 Sample.buf8 8192) _)).
  reflexivity.
Defined.

Lemma filter_lock_syscalls (evs : list Event) :
  Forall (fun e => is_syscall e = true) evs -> filter is_lock_event evs = [].
Proof.
  induction 1 as [|e evs He _ IH]; simpl; [reflexivity|].
  destruct e; simpl in *; try discriminate; assumption.
Qed.

(** Neither [startAsyncOperation] nor [run] itself takes the lock.  Staging
    an operation, with either overload, logs nothing and leaves the lock as
    it is; the worker routine logs no [lock], and logs [unlock] exactly once
    when it returns and not at all when it ends on an exception or on a call
    that never answers. *)
Theorem staging_and_run_never_lock
  (user : Handlers) (w : World) (read_operation : bool) (h : fnptr) (s p : Z)
  (b : Buffer) :
  filter is_lock_event (transcript (run user) w)
  = match fst (run user w) with
    | Returned _ => [EvUnlock]
    | _ => []
    end
  /\ (transcript (startAsyncOperation_Buffer read_operation h b s) w = []
      /\ lock_ (des (snd (startAsyncOperation_Buffer read_operation h b s w)))
         = lock_ (des w))
  /\ (transcript (startAsyncOperation_void read_operation h p s) w = []
      /\ lock_ (des (snd (startAsyncOperation_void read_operation h p s w)))
         = lock_ (des w)).
Proof.
  split.
  - destruct (run_cases user w) as [Hnone|Hmode].
    + unfold transcript. rewrite (run_idle user w Hnone). simpl.
      now rewrite skipn_length_app.
    + destruct (staged_loop_log (job_ (des w)) w) as [Hlog Hsys].
      unfold transcript in *. rewrite (run_staged user w Hmode).
      destruct (staged_loop (job_ (des w)) w) as [[n|e0|] w1]; simpl in *;
        try (now apply filter_lock_syscalls).
      rewrite Hlog, <- !app_assoc, skipn_length_app, filter_app.
      rewrite (filter_lock_syscalls _ Hsys). simpl.
      unfold staged_callback. destruct (async_operation_ (job_ (des w))); reflexivity.
  - unfold transcript.
    split; destruct read_operation; simpl; rewrite skipn_all; split; reflexivity.
Qed.
